(** * QR utility: validation, formatting, retry and diagnostics

    A shallow embedding of the logic of the QR generator application:
    - [src/utils/validation.ts]: [sanitize], [validate], [withRetry];
    - [src/components/QRGenerator.tsx]: [qrTemplates], [saveToHistory],
      and the validated generator's [generateQR] path;
    - [src/components/DiagnosticModule.tsx]: the nine checks and
      [runDiagnostics].

    JavaScript strings are sequences of UTF-16 code units; they are modelled
    as lists of code units ([list N]).  Numbers that the code only uses as
    integers (lengths, attempt counters, delays, timestamps) are [Z]; the
    bot-detection score is a rational. *)

From Stdlib Require Import ZArith NArith QArith String Ascii List Lia Bool.
From Stdlib Require Import DecimalString.
From stdpp Require Import base list gmap.
Import ListNotations.

Local Open Scope Z_scope.

(** ** JavaScript strings *)

Module JS.

Abbreviation jsstring := (list N).

(** A string literal of the source, as code units. *)
Definition lit (s : string) : jsstring :=
  List.map N_of_ascii (list_ascii_of_string s).

Definition chr (a : ascii) : N := N_of_ascii a.

(** The decimal digits of a non-negative integer. *)
Definition decimal (m : Z) : jsstring :=
  lit (NilZero.string_of_int (Z.to_int m)).

(** The Number nearest to the non-negative integer [m]: an integer of up to
    53 bits is a Number; a longer one is rounded to 53 significant bits, a
    tie to the even significand, and from [2^1024] on the result is
    [Infinity] ([None]). *)
Definition toNumber (m : Z) : option Z :=
  let bits := Z.log2 m + 1 in
  if bits <=? 53 then Some m
  else
    let sh := bits - 53 in
    let q := Z.shiftr m sh in
    let r := m - Z.shiftl q sh in
    let half := Z.shiftl 1 (sh - 1) in
    let q' := if (half <? r) || ((r =? half) && Z.odd q) then q + 1 else q in
    let v := Z.shiftl q' sh in
    if v <? 2 ^ 1024 then Some v else None.

Definition isNumber (x v : Z) : bool :=
  match toNumber v with Some y => y =? x | None => false end.

(** The integer with the fewest significant digits whose Number is [x], a
    Number of [n] digits; of two such integers the nearer to [x], and the
    even one on a tie.  These are the digits that [Number::toString]
    prints. *)
Fixpoint shortest (fuel : nat) (k n x : Z) : Z :=
  match fuel with
  | O => x
  | S fuel' =>
      let scale := 10 ^ (n - k) in
      let lo := x / scale * scale in
      let hi := lo + scale in
      match isNumber x lo, isNumber x hi with
      | true, true =>
          if x - lo <? hi - x then lo
          else if hi - x <? x - lo then hi
          else if Z.even (x / scale) then lo else hi
      | true, false => lo
      | false, true => hi
      | false, false => shortest fuel' (k + 1) n x
      end
  end.

Fixpoint dropZeros (s : jsstring) : jsstring :=
  match s with
  | c :: t => if (c =? 48)%N then dropZeros t else s
  | [] => []
  end.

(** [Number::toString] of a non-negative integral Number: all the digits
    up to 21 of them, the exponent form beyond. *)
Definition printNumber (x : Z) : jsstring :=
  let n := length (decimal x) in
  let digits := decimal (shortest n 1 (Z.of_nat n) x) in
  if (length digits <=? 21)%nat then digits
  else
    let e := lit "e+" ++ decimal (Z.of_nat (length digits) - 1) in
    match rev (dropZeros (rev digits)) with
    | [] => digits
    | [d] => d :: e
    | d :: ds => d :: chr "." :: ds ++ e
    end.

(** [`${n}`] for the Number that the integer [n] denotes. *)
Definition Number_toString (n : Z) : jsstring :=
  let sign := if n <? 0 then lit "-" else [] in
  match toNumber (Z.abs n) with
  | Some x => sign ++ printNumber x
  | None => sign ++ lit "Infinity"
  end.

Definition eqb (s t : jsstring) : bool :=
  bool_decide (s = t).

(** [s.length] *)
Definition len (s : jsstring) : Z := Z.of_nat (length s).

(** Truthiness of a string: only the empty string is falsy. *)
Definition truthy (s : jsstring) : bool :=
  match s with [] => false | _ :: _ => true end.

(** WhiteSpace and LineTerminator code points of ECMAScript: the set that
    [String.prototype.trim] strips and that [\s] matches. *)
Definition isWhiteSpace (c : N) : bool :=
  ((9 <=? c) && (c <=? 13)           (* TAB LF VT FF CR *)
   || (c =? 32)                      (* SPACE *)
   || (c =? 160)                     (* NO-BREAK SPACE *)
   || (c =? 5760)                    (* U+1680 *)
   || ((8192 <=? c) && (c <=? 8202)) (* U+2000 .. U+200A *)
   || (c =? 8232) || (c =? 8233)     (* U+2028 U+2029 *)
   || (c =? 8239)                    (* U+202F *)
   || (c =? 8287)                    (* U+205F *)
   || (c =? 12288)                   (* U+3000 *)
   || (c =? 65279))%N.               (* U+FEFF *)

Fixpoint trimStart (s : jsstring) : jsstring :=
  match s with
  | [] => []
  | c :: t => if isWhiteSpace c then trimStart t else s
  end.

Definition trimEnd (s : jsstring) : jsstring :=
  rev (trimStart (rev s)).

(** [s.trim()] *)
Definition trim (s : jsstring) : jsstring :=
  trimEnd (trimStart s).

(** [s.startsWith(p)] *)
Fixpoint startsWith (p s : jsstring) : bool :=
  match p, s with
  | [], _ => true
  | _ :: _, [] => false
  | a :: p', b :: s' => (a =? b)%N && startsWith p' s'
  end.

(** [s.split(sep)] for a separator of one code unit.  The result is never
    empty: the empty string splits into one empty part. *)
Fixpoint split (sep : N) (s : jsstring) : list jsstring :=
  match s with
  | [] => [[]]
  | c :: t =>
      if (c =? sep)%N then [] :: split sep t
      else match split sep t with
           | p :: ps => (c :: p) :: ps
           | [] => [[c]]
           end
  end.

(** [s.replace(/[...]/g, '')] for a character class: every code unit of
    the class is dropped. *)
Definition removeClass (cls : N -> bool) (s : jsstring) : jsstring :=
  List.filter (fun c => negb (cls c)) s.

(** Canonicalisation of a code unit under the [i] flag (without [u]):
    ASCII letters fold to upper case.  A code unit above 127 never
    canonicalises to an ASCII one in ECMAScript, so against the ASCII
    patterns of this program only this folding matters. *)
Definition canonicalize (c : N) : N :=
  if ((97 <=? c) && (c <=? 122))%N then (c - 32)%N else c.

(** Does the literal pattern [p] match, ignoring case, at the start of [s]? *)
Fixpoint matchesAt_i (p s : jsstring) : bool :=
  match p, s with
  | [], _ => true
  | _ :: _, [] => false
  | a :: p', b :: s' =>
      (canonicalize a =? canonicalize b)%N && matchesAt_i p' s'
  end.

(** [s.replace(/p/gi, '')] for a literal pattern [p]: matches are found
    left to right and do not overlap; after a match the scan resumes
    behind it.  [skip] counts the code units of the current match that
    are still to be dropped. *)
Fixpoint removeAll_i_from (p : jsstring) (skip : nat) (s : jsstring) : jsstring :=
  match s with
  | [] => []
  | c :: t =>
      match skip with
      | S k => removeAll_i_from p k t
      | O =>
          match p with
          | [] => c :: removeAll_i_from p 0 t
          | _ :: p' =>
              if matchesAt_i p s then removeAll_i_from p (length p') t
              else c :: removeAll_i_from p 0 t
          end
      end
  end.

Definition removeAll_i (p s : jsstring) : jsstring :=
  removeAll_i_from p 0 s.

(** [/p/i.test(s)] for a literal pattern [p]: a match anywhere in [s]. *)
Fixpoint test_i (p s : jsstring) : bool :=
  matchesAt_i p s ||
  match s with
  | [] => false
  | _ :: t => test_i p t
  end.

(** [arr.includes(x)] on an array of strings. *)
Definition includes (arr : list jsstring) (x : jsstring) : bool :=
  existsb (eqb x) arr.

(** Built-ins of the host that the program calls and whose tables (Unicode
    case mapping, the WHATWG URL parser) are not part of the program. *)
Class Runtime := {
  toUpperCase : jsstring -> jsstring;
  toLowerCase : jsstring -> jsstring;
  (** [new URL(s).toString()]: [None] when the constructor throws. *)
  URL_href : jsstring -> option jsstring
}.

(** A small runtime for running examples on ASCII input: case mapping of
    the ASCII letters, and a URL constructor that accepts exactly the
    strings with an [http://] or [https://] scheme and no white space. *)
Definition asciiUpper (c : N) : N :=
  if ((97 <=? c) && (c <=? 122))%N then (c - 32)%N else c.
Definition asciiLower (c : N) : N :=
  if ((65 <=? c) && (c <=? 90))%N then (c + 32)%N else c.

Definition asciiRuntime : Runtime := {|
  toUpperCase := List.map asciiUpper;
  toLowerCase := List.map asciiLower;
  URL_href := fun s =>
    if (startsWith (lit "http://") s || startsWith (lit "https://") s)
       && negb (existsb isWhiteSpace s)
    then Some s else None
|}.

End JS.

(** ** Regular expressions of the validators

  The anchored patterns of [validate.email] and [validate.phone] are
  matched with Brzozowski derivatives over code units. *)

Module Regex.
Import JS.

Inductive re : Type :=
| Empty
| Eps
| Class (cls : N -> bool)
| Cat (r1 r2 : re)
| Alt (r1 r2 : re)
| Star (r : re).

Definition Plus (r : re) : re := Cat r (Star r).
Definition Opt (r : re) : re := Alt r Eps.

(** [r{n,}] *)
Fixpoint AtLeast (n : nat) (r : re) : re :=
  match n with
  | O => Star r
  | S k => Cat r (AtLeast k r)
  end.

Fixpoint nullable (r : re) : bool :=
  match r with
  | Empty => false
  | Eps => true
  | Class _ => false
  | Cat r1 r2 => nullable r1 && nullable r2
  | Alt r1 r2 => nullable r1 || nullable r2
  | Star _ => true
  end.

Fixpoint deriv (c : N) (r : re) : re :=
  match r with
  | Empty => Empty
  | Eps => Empty
  | Class cls => if cls c then Eps else Empty
  | Cat r1 r2 =>
      if nullable r1 then Alt (Cat (deriv c r1) r2) (deriv c r2)
      else Cat (deriv c r1) r2
  | Alt r1 r2 => Alt (deriv c r1) (deriv c r2)
  | Star r1 => Cat (deriv c r1) (Star r1)
  end.

(** [/^r$/.test(s)] *)
Fixpoint test (r : re) (s : jsstring) : bool :=
  match s with
  | [] => nullable r
  | c :: t => test (deriv c r) t
  end.

Definition isChar (a : ascii) (c : N) : bool := (c =? chr a)%N.
Definition digit (c : N) : bool := ((48 <=? c) && (c <=? 57))%N.
Definition alpha (c : N) : bool :=
  (((65 <=? c) && (c <=? 90)) || ((97 <=? c) && (c <=? 122)))%N.

End Regex.

(** ** [src/utils/validation.ts] *)

Module Validation.
Import JS Regex.

Record ValidationResult := {
  isValid : bool;
  error : option jsstring;
  sanitizedValue : option jsstring
}.

(** [{ isValid: false, error: msg }] *)
Definition invalid (msg : jsstring) : ValidationResult :=
  {| isValid := false; error := Some msg; sanitizedValue := None |}.

(** [{ isValid: true, sanitizedValue: v }] *)
Definition valid (v : jsstring) : ValidationResult :=
  {| isValid := true; error := None; sanitizedValue := Some v |}.

(** The invariant of the data model: a result is valid exactly when it
    carries a sanitized value and no error. *)
Definition consistent (r : ValidationResult) : Prop :=
  isValid r = true <-> (is_Some (sanitizedValue r) /\ error r = None).

(** An absent option is [None]; [pattern] is represented by its [test]
    method. *)
Record ValidationOptions := {
  maxLength : option Z;
  minLength : option Z;
  required : option bool;
  pattern : option (jsstring -> bool);
  customValidator : option (jsstring -> ValidationResult)
}.

(** The default [options = {}]. *)
Definition noOptions : ValidationOptions :=
  {| maxLength := None; minLength := None; required := None;
     pattern := None; customValidator := None |}.

(** *** [sanitize] *)

Definition sanitize_text (input : jsstring) : jsstring :=
  trim
    (removeAll_i (lit "data:")
       (removeAll_i (lit "javascript:")
          (removeClass (fun c => isChar "<" c || isChar ">" c) input))).

(** [/[^a-zA-Z0-9:/?._-]/]: the class that the fallback of [sanitize.url]
    keeps. *)
Definition urlKept (c : N) : bool :=
  alpha c || digit c || isChar ":" c || isChar "/" c || isChar "?" c
  || isChar "." c || isChar "_" c || isChar "-" c.

Definition emailKept (c : N) : bool :=
  alpha c || digit c || isChar "@" c || isChar "." c || isChar "_" c
  || isChar "-" c.

(** [/[^+\d\s\-\(\)\.]/] *)
Definition phoneKept (c : N) : bool :=
  isChar "+" c || digit c || isWhiteSpace c || isChar "-" c
  || isChar "(" c || isChar ")" c || isChar "." c.

(** The class stripped by [sanitize.wifi] and [sanitize.contact]: the
    semicolon and the double quote (code unit 34). *)
Definition wifiStripped (c : N) : bool :=
  isChar ";" c || (c =? 34)%N.

Section WithRuntime.
Context {rt : Runtime}.

Definition sanitize_url (input : jsstring) : jsstring :=
  match URL_href (if startsWith (lit "http") input then input
                  else lit "https://" ++ input) with
  | Some href => href
  | None => removeClass (fun c => negb (urlKept c)) input
  end.

Definition sanitize_email (input : jsstring) : jsstring :=
  removeClass (fun c => negb (emailKept c)) (trim (toLowerCase input)).

Definition sanitize_phone (input : jsstring) : jsstring :=
  trim (removeClass (fun c => negb (phoneKept c)) input).

Definition sanitize_wifi (input : jsstring) : jsstring :=
  trim (removeClass wifiStripped input).

Definition sanitize_contact (input : jsstring) : jsstring :=
  trim (removeClass wifiStripped input).

(** *** [validate] *)

(** [n && cond n] for an optional number: absent and [0] are falsy. *)
Definition numberAnd (o : option Z) (cond : Z -> bool) : bool :=
  match o with
  | Some n => negb (n =? 0) && cond n
  | None => false
  end.

Definition validate_text (input : jsstring) (options : ValidationOptions)
  : ValidationResult :=
  let sanitized := sanitize_text input in
  if match required options with Some b => b | None => false end
     && negb (truthy sanitized)
  then invalid (lit "This field is required")
  else if numberAnd (minLength options) (fun n => len sanitized <? n)
  then invalid (lit "Minimum length is "
                ++ match minLength options with
                   | Some n => Number_toString n | None => []
                   end
                ++ lit " characters")
  else if numberAnd (maxLength options) (fun n => n <? len sanitized)
  then invalid (lit "Maximum length is "
                ++ match maxLength options with
                   | Some n => Number_toString n | None => []
                   end
                ++ lit " characters")
  else if match pattern options with
          | Some test => negb (test sanitized)
          | None => false
          end
  then invalid (lit "Invalid format")
  else match customValidator options with
       | Some custom => custom sanitized
       | None => valid sanitized
       end.

Definition validate_url (input : jsstring) : ValidationResult :=
  let sanitized := sanitize_url input in
  match URL_href sanitized with
  | Some _ => valid sanitized
  | None => invalid (lit "Invalid URL format")
  end.

(** [/^[^\s@]+@[^\s@]+\.[^\s@]+$/] *)
Definition emailRegex : re :=
  let notSpaceAt := Class (fun c => negb (isWhiteSpace c || isChar "@" c)) in
  Cat (Plus notSpaceAt)
    (Cat (Class (isChar "@"))
       (Cat (Plus notSpaceAt)
          (Cat (Class (isChar ".")) (Plus notSpaceAt)))).

Definition validate_email (input : jsstring) : ValidationResult :=
  let sanitized := sanitize_email input in
  if negb (test emailRegex sanitized)
  then invalid (lit "Invalid email format")
  else valid sanitized.

(** [/^[\+]?[\d\s\-\(\)\.]{7,}$/] *)
Definition phoneRegex : re :=
  Cat (Opt (Class (isChar "+")))
    (AtLeast 7
       (Class (fun c => digit c || isWhiteSpace c || isChar "-" c
                        || isChar "(" c || isChar ")" c || isChar "." c))).

Definition validate_phone (input : jsstring) : ValidationResult :=
  let sanitized := sanitize_phone input in
  if negb (test phoneRegex sanitized)
  then invalid (lit "Invalid phone number format")
  else valid sanitized.

Definition validSecurity : list jsstring :=
  [lit "WPA"; lit "WPA2"; lit "WPA3"; lit "WEP"; lit "NONE"].

(** The pattern on [parts] is the test [parts.length < 3] followed by the
    destructuring of the first three trimmed parts. *)
Definition validate_wifi (input : jsstring) : ValidationResult :=
  let sanitized := sanitize_wifi input in
  let parts := split (chr ",") sanitized in
  match parts with
  | p0 :: p1 :: p2 :: _ =>
      let ssid := trim p0 in
      let password := trim p1 in
      let security := trim p2 in
      if negb (truthy ssid) then invalid (lit "Network name is required")
      else if negb (truthy password) then invalid (lit "Password is required")
      else if negb (includes validSecurity (toUpperCase security))
      then invalid (lit "Security type must be: WPA, WPA2, WPA3, WEP, or NONE")
      else valid sanitized
  | _ => invalid (lit "Please provide: NetworkName,Password,SecurityType")
  end.

(** [`Invalid phone: ${r.error}`]: an absent error prints as [undefined]. *)
Definition errorText (r : ValidationResult) : jsstring :=
  match error r with Some e => e | None => lit "undefined" end.

Definition validate_contact (input : jsstring) : ValidationResult :=
  let sanitized := sanitize_contact input in
  let parts := split (chr ",") sanitized in
  match parts with
  | p0 :: p1 :: p2 :: _ =>
      let name := trim p0 in
      let phone := trim p1 in
      let email := trim p2 in
      if negb (truthy name) then invalid (lit "Name is required")
      else
        let phoneValidation := validate_phone phone in
        if truthy phone && negb (isValid phoneValidation)
        then invalid (lit "Invalid phone: " ++ errorText phoneValidation)
        else
          let emailValidation := validate_email email in
          if truthy email && negb (isValid emailValidation)
          then invalid (lit "Invalid email: " ++ errorText emailValidation)
          else valid sanitized
  | _ => invalid (lit "Please provide: Name,Phone,Email")
  end.

End WithRuntime.

(** *** [withRetry]

    The operation is a computation over a world [W]: one call either
    resolves with a value or rejects with an error, and moves the world on.
    The run records every backoff wait that was requested. *)

Section Retry.
Context {W T E : Type}.

Definition Operation := W -> (T + E) * W.

(** How a run ends: the value returned, or the value thrown, which is
    [lastError] ([None] is [undefined], when no attempt was made). *)
Record RetryRun := {
  outcome : T + option E;
  waits : list Z;
  world : W
}.

(** The [for] loop from a given [attempt] on.  [fuel] bounds the number of
    iterations; [None] means the bound was reached. *)
Fixpoint retryLoop (operation : Operation) (maxRetries delay : Z)
    (fuel : nat) (attempt : Z) (lastError : option E) (waited : list Z)
    (w : W) : option RetryRun :=
  if attempt <=? maxRetries then
    match fuel with
    | O => None
    | S fuel' =>
        match operation w with
        | (inl value, w') =>
            Some {| outcome := inl value; waits := waited; world := w' |}
        | (inr err, w') =>
            if attempt =? maxRetries
            then Some {| outcome := inr (Some err); waits := waited;
                         world := w' |}
            else retryLoop operation maxRetries delay fuel' (attempt + 1)
                   (Some err) (waited ++ [delay * 2 ^ (attempt - 1)]) w'
        end
    end
  else Some {| outcome := inr lastError; waits := waited; world := w |}.

Definition withRetry (operation : Operation) (maxRetries delay : Z) (w : W)
  : option RetryRun :=
  retryLoop operation maxRetries delay (Z.to_nat maxRetries) 1 None [] w.

End Retry.

End Validation.

(** ** [src/components/QRGenerator.tsx] *)

Module QRGenerator.
Import JS Validation.

Inductive TemplateId := text | url | wifi | contact | email | phone.

Record QRTemplate := {
  id : TemplateId;
  name : jsstring;
  placeholder : jsstring;
  format : jsstring -> jsstring
}.

Record QRHistory := {
  entryId : jsstring;
  content : jsstring;
  template : jsstring;
  timestamp : Z;
  qrDataUrl : jsstring
}.

Definition format_url (value : jsstring) : jsstring :=
  if startsWith (lit "http") value then value else lit "https://" ++ value.

Definition format_wifi (value : jsstring) : jsstring :=
  let parts := split (chr ",") value in
  match parts with
  | p0 :: p1 :: p2 :: _ =>
      (* parts.length >= 3 *)
      lit "WIFI:T:" ++ p2 ++ lit ";S:" ++ p0 ++ lit ";P:" ++ p1 ++ lit ";;"
  | _ => value
  end.

Definition newline : jsstring := [10%N].

Definition format_contact (value : jsstring) : jsstring :=
  let parts := split (chr ",") value in
  match parts with
  | p0 :: p1 :: p2 :: _ =>
      lit "BEGIN:VCARD" ++ newline ++ lit "VERSION:3.0" ++ newline
      ++ lit "FN:" ++ p0 ++ newline ++ lit "TEL:" ++ p1 ++ newline
      ++ lit "EMAIL:" ++ p2 ++ newline ++ lit "END:VCARD"
  | _ => value
  end.

Definition textTemplate : QRTemplate :=
  {| id := text; name := lit "Text";
     placeholder := lit "Enter any text...";
     format := fun value => value |}.

Definition urlTemplate : QRTemplate :=
  {| id := url; name := lit "Website";
     placeholder := lit "https://example.com";
     format := format_url |}.

Definition wifiTemplate : QRTemplate :=
  {| id := wifi; name := lit "WiFi";
     placeholder := lit "NetworkName,Password,WPA";
     format := format_wifi |}.

Definition contactTemplate : QRTemplate :=
  {| id := contact; name := lit "Contact";
     placeholder := lit "Name,Phone,Email";
     format := format_contact |}.

Definition emailTemplate : QRTemplate :=
  {| id := email; name := lit "Email";
     placeholder := lit "email@example.com";
     format := fun value => lit "mailto:" ++ value |}.

Definition phoneTemplate : QRTemplate :=
  {| id := phone; name := lit "Phone";
     placeholder := lit "+1234567890";
     format := fun value => lit "tel:" ++ value |}.

Definition qrTemplates : list QRTemplate :=
  [textTemplate; urlTemplate; wifiTemplate; contactTemplate; emailTemplate;
   phoneTemplate].

(** The state of the component that the modelled functions read and write;
    [stored] is the snapshot last written under the key [qrHistory]. *)
Record State := {
  input : jsstring;
  selectedTemplate : QRTemplate;
  qrHistory : list QRHistory;
  validationError : option jsstring;
  stored : option (list QRHistory)
}.

(** How a call ends: it returns, or it throws. *)
Inductive Completion := Returned | Thrown.

(** [saveToHistory(content, qrDataUrl)]; [now_id] and [now_ts] are the two
    readings of [Date.now()], and [setItem] is how the host completes
    [localStorage.setItem('qrHistory', JSON.stringify(updated))]: the host
    throws when the quota is exceeded or the storage is blocked.  The write
    comes after [setQrHistory(updated)] and nothing catches its exception
    here: the history is updated in both cases, the stored snapshot only when
    the write returns, and the call completes as the write does. *)
Definition saveToHistory (setItem : Completion) (now_id now_ts : Z)
    (content' qrDataUrl' : jsstring) (st : State) : State * Completion :=
  let newEntry :=
    {| entryId := Number_toString now_id;
       content := content';
       template := name (selectedTemplate st);
       timestamp := now_ts;
       qrDataUrl := qrDataUrl' |} in
  let updated := newEntry :: take 9 (qrHistory st) in
  ({| input := input st;
      selectedTemplate := selectedTemplate st;
      qrHistory := updated;
      validationError := validationError st;
      stored := match setItem with
                | Returned => Some updated
                | Thrown => stored st
                end |},
   setItem).

(** The generator that validates its input before it generates (the
    component that imports [validate] and [withRetry]; in the source tree it
    follows the diagnostic component in [DiagnosticModule.tsx]).  Its
    templates and its [saveToHistory] list update are those above. *)
Section Validated.
Context {rt : Runtime}.

(** The template-specific [customValidator] of the validated generator. *)
Definition templateValidator (i : TemplateId) (val : jsstring)
  : ValidationResult :=
  match i with
  | url => validate_url val
  | email => validate_email val
  | phone => validate_phone val
  | wifi => validate_wifi val
  | contact => validate_contact val
  | text =>
      validate_text val
        {| maxLength := Some 2000; minLength := None; required := None;
           pattern := None; customValidator := None |}
  end.

(** The body of the debounced validation: the new [validationError]. *)
Definition validateInput (i : TemplateId) (value : jsstring)
  : option jsstring :=
  if negb (truthy (trim value)) then None
  else
    let validation :=
      validate_text value
        {| maxLength := Some 2000; minLength := None; required := None;
           pattern := None;
           customValidator := Some (templateValidator i) |} in
    if isValid validation then None
    else match error validation with
         | Some e => if truthy e then Some e else Some (lit "Invalid input")
         | None => Some (lit "Invalid input")
         end.

(** The start of [generateQR], up to the content handed to the QR engine:
    either a toast and no code, or the formatted content. *)
Inductive Generated :=
| Rejected (toast : jsstring)
| Formatted (formattedContent : jsstring).

Definition generateQR_content (st : State) : Generated :=
  let trimmedText := trim (input st) in
  if negb (truthy trimmedText)
  then Rejected (lit "Please enter some content to generate a QR code")
  else match validationError st with
       | Some e =>
           if truthy e then Rejected e
           else Formatted (format (selectedTemplate st) trimmedText)
       | None => Formatted (format (selectedTemplate st) trimmedText)
       end.

End Validated.

End QRGenerator.

(** ** [src/components/DiagnosticModule.tsx] *)

Module Diagnostic.
Import JS.

Inductive Status := pending | passed | failed | skipped.

#[global] Instance Status_eq_dec : EqDecision Status.
Proof. solve_decision. Defined.

Record DiagnosticResult := {
  name : jsstring;
  status : Status;
  message : jsstring;
  details : option jsstring
}.

Definition result (n : string) (s : Status) (m : string)
    (d : option jsstring) : DiagnosticResult :=
  {| name := lit n; status := s; message := lit m; details := d |}.

(** A thrown [Error] (or [DOMException]). *)
Record JsError := {
  err_name : jsstring;
  err_message : jsstring
}.

(** The outcome of a call that may throw or reject. *)
Inductive Try (A : Type) :=
| Ok (a : A)
| Throw (e : JsError).
Arguments Ok {A} a.
Arguments Throw {A} e.

Inductive ContextId := webgl | experimental_webgl.
Inductive MediaKind := video | audio.
Inductive Permission := granted | denied | default.

(** What the checks observe of the browser. *)
Record Env := {
  (** [new RTCPeerConnection()] followed by [close()] *)
  rtcPeerConnection : Try unit;
  (** [canvas.getContext(id)]: is the result truthy? *)
  getContext : ContextId -> Try bool;
  serviceWorker_in_navigator : bool;
  indexedDB_in_window : bool;
  (** [window.AudioContext || window.webkitAudioContext]: [None] when
      falsy, else the outcome of constructing and closing a context *)
  audioContext : option (Try unit);
  (** [navigator.mediaDevices && navigator.mediaDevices.getUserMedia] *)
  getUserMedia_present : bool;
  (** [getUserMedia] and the release of the tracks *)
  getUserMedia : MediaKind -> Try unit;
  (** [Notification.permission]; [None] when [Notification] is absent *)
  notification_permission : option Permission;
  requestPermission : Try Permission;
  (** [endTime - startTime] around the 10 ms timer *)
  timingVariance : Q;
  (** did a [mousemove] event arrive within the 100 ms window? *)
  mouseMoved : bool;
  (** [navigator.hardwareConcurrency]; [None] when undefined *)
  hardwareConcurrency : option Z;
  userAgent : jsstring
}.

Definition checkWebRTC (env : Env) : DiagnosticResult :=
  match rtcPeerConnection env with
  | Ok _ => result "WebRTC Support" passed "WebRTC is supported" None
  | Throw _ => result "WebRTC Support" failed "WebRTC not supported" None
  end.

Definition checkWebGL (env : Env) : DiagnosticResult :=
  let supported := result "WebGL Support" passed "WebGL is supported" None in
  let unsupported :=
    result "WebGL Support" failed "WebGL not supported" None in
  let threw := result "WebGL Support" failed "WebGL check failed" None in
  match getContext env webgl with
  | Throw _ => threw
  | Ok true => supported
  | Ok false =>
      match getContext env experimental_webgl with
      | Throw _ => threw
      | Ok true => supported
      | Ok false => unsupported
      end
  end.

Definition checkServiceWorkers (env : Env) : DiagnosticResult :=
  if serviceWorker_in_navigator env
  then result "Service Workers" passed "Service Workers supported" None
  else result "Service Workers" failed "Service Workers not supported" None.

Definition checkIndexedDB (env : Env) : DiagnosticResult :=
  if indexedDB_in_window env
  then result "IndexedDB Support" passed "IndexedDB is supported" None
  else result "IndexedDB Support" failed "IndexedDB not supported" None.

Definition checkAudioContext (env : Env) : DiagnosticResult :=
  match audioContext env with
  | Some (Ok _) =>
      result "Audio Context" passed "Audio Context supported" None
  | None => result "Audio Context" failed "Audio Context not supported" None
  | Some (Throw _) =>
      result "Audio Context" failed "Audio Context check failed" None
  end.

Definition checkCameraPermissions (env : Env) : DiagnosticResult :=
  if negb (getUserMedia_present env)
  then result "Camera Permissions" failed "Camera API not supported" None
  else match getUserMedia env video with
       | Ok _ =>
           result "Camera Permissions" passed "Camera access granted" None
       | Throw e =>
           if eqb (err_name e) (lit "NotAllowedError")
           then result "Camera Permissions" failed "Camera access denied"
                  (Some (lit
                     "Please allow camera access in your browser settings"))
           else if eqb (err_name e) (lit "NotFoundError")
           then result "Camera Permissions" skipped "No camera detected" None
           else result "Camera Permissions" failed "Camera check failed"
                  (Some (err_message e))
       end.

Definition checkMicrophonePermissions (env : Env) : DiagnosticResult :=
  if negb (getUserMedia_present env)
  then result "Microphone Permissions" failed "Audio API not supported" None
  else match getUserMedia env audio with
       | Ok _ =>
           result "Microphone Permissions" passed
             "Microphone access granted" None
       | Throw e =>
           if eqb (err_name e) (lit "NotAllowedError")
           then result "Microphone Permissions" failed
                  "Microphone access denied"
                  (Some (lit
                     "Please allow microphone access in your browser settings"))
           else if eqb (err_name e) (lit "NotFoundError")
           then result "Microphone Permissions" skipped
                  "No microphone detected" None
           else result "Microphone Permissions" failed
                  "Microphone check failed" (Some (err_message e))
       end.

Definition checkNotificationPermissions (env : Env) : DiagnosticResult :=
  let enabled :=
    result "Notification Permissions" passed "Notifications enabled" None in
  match notification_permission env with
  | None =>
      result "Notification Permissions" failed
        "Notifications not supported" None
  | Some granted => enabled
  | Some denied =>
      result "Notification Permissions" failed "Notifications blocked"
        (Some (lit "Please enable notifications in your browser settings"))
  | Some default =>
      match requestPermission env with
      | Ok granted => enabled
      | Ok _ =>
          result "Notification Permissions" failed "Notifications denied"
            (Some (lit "Notifications are required for some features"))
      | Throw e =>
          result "Notification Permissions" failed
            "Notification check failed" (Some (err_message e))
      end
  end.

Section BotDetection.
Context {rt : Runtime}.

(** [/bot|crawl|spider|scraper/i.test(userAgent)] on the lower-cased agent *)
Definition isBot (env : Env) : bool :=
  let ua := toLowerCase (userAgent env) in
  test_i (lit "bot") ua || test_i (lit "crawl") ua
  || test_i (lit "spider") ua || test_i (lit "scraper") ua.

(** The five values pushed onto [heuristics], in order. *)
Definition heuristics (env : Env) : list bool :=
  [ negb (Qle_bool (timingVariance env) 15);
    mouseMoved env;
    match getContext env webgl with Ok gl => gl | Throw _ => false end;
    2 <=? match hardwareConcurrency env with
          | Some n => if n =? 0 then 1 else n
          | None => 1
          end;
    negb (isBot env) ].

(** [heuristics.filter(Boolean).length] *)
Definition passing (hs : list bool) : nat :=
  length (List.filter (fun b => b) hs).

(** [passing / heuristics.length], as an exact fraction.  The thresholds
    [0.7] and [0.4] are the decimal literals of the source; on the six
    scores [0/5 .. 5/5] the comparisons of IEEE doubles and of exact
    fractions agree ([2/5] and the literal [0.4] round to the same
    double). *)
Definition humanScore (hs : list bool) : Q :=
  (inject_Z (Z.of_nat (passing hs)) / inject_Z (Z.of_nat (length hs)))%Q.

Definition classify (score : Q) : DiagnosticResult :=
  if Qle_bool (7 # 10) score
  then result "Bot Detection" passed "Human interaction detected" None
  else if Qle_bool (4 # 10) score
  then result "Bot Detection" skipped "Uncertain detection result" None
  else result "Bot Detection" failed "Automated interaction suspected" None.

Definition checkBotDetection (env : Env) : DiagnosticResult :=
  classify (humanScore (heuristics env)).

End BotDetection.

(** A terminal status: the check has resolved. *)
Definition terminal (r : DiagnosticResult) : Prop :=
  status r = passed \/ status r = failed \/ status r = skipped.

(** A check answers under its own name with a terminal status. *)
Definition answers (n : string) (r : DiagnosticResult) : Prop :=
  name r = lit n /\ terminal r.

(** *** The battery *)

(** A registered check: it resolves with a result or rejects. *)
Record Check := {
  check_name : jsstring;
  check : Env -> Try DiagnosticResult
}.

(** What a run does, in order. *)
Inductive Event :=
| SetIsRunning (b : bool)
| SetResults (rs : list DiagnosticResult)
| Await (checkName : jsstring)
| Delay (ms : Z)
| SetIsComplete (b : bool).

Record State := {
  results : list DiagnosticResult;
  isRunning : bool;
  isComplete : bool;
  log : list Event
}.

Definition setIsRunning (b : bool) (st : State) : State :=
  {| results := results st; isRunning := b; isComplete := isComplete st;
     log := log st ++ [SetIsRunning b] |}.

Definition setIsComplete (b : bool) (st : State) : State :=
  {| results := results st; isRunning := isRunning st; isComplete := b;
     log := log st ++ [SetIsComplete b] |}.

(** [setResults(prev => f(prev))] *)
Definition setResults (f : list DiagnosticResult -> list DiagnosticResult)
    (st : State) : State :=
  let next := f (results st) in
  {| results := next; isRunning := isRunning st; isComplete := isComplete st;
     log := log st ++ [SetResults next] |}.

Definition record (ev : Event) (st : State) : State :=
  {| results := results st; isRunning := isRunning st;
     isComplete := isComplete st; log := log st ++ [ev] |}.

(** [prev.map((r, idx) => idx === i ? x : r)] *)
Definition replaceAt (i : nat) (x : DiagnosticResult)
    (prev : list DiagnosticResult) : list DiagnosticResult :=
  imap (fun idx r => if bool_decide (idx = i) then x else r) prev.

(** [error instanceof Error ? error.message : 'Unknown error']; a [JsError]
    is an [Error]. *)
Definition thrownResult (c : Check) (e : JsError) : DiagnosticResult :=
  {| name := check_name c; status := failed; message := lit "Check failed";
     details := Some (err_message e) |}.

(** The result that a run stores for a check: its own result, or the
    [failed] result of the [catch] branch. *)
Definition recorded (env : Env) (c : Check) : DiagnosticResult :=
  match check c env with
  | Ok r => r
  | Throw e => thrownResult c e
  end.

(** The body of the [for] loop for the checks from index [i] on. *)
Fixpoint runChecks (env : Env) (i : nat) (remaining : list Check)
    (st : State) : State :=
  match remaining with
  | [] => st
  | c :: rest =>
      let st1 := record (Await (check_name c)) st in
      let st2 :=
        match check c env with
        | Ok r => record (Delay 300) (setResults (replaceAt i r) st1)
        | Throw e => setResults (replaceAt i (thrownResult c e)) st1
        end in
      runChecks env (S i) rest st2
  end.

Definition pendingResult (c : Check) : DiagnosticResult :=
  {| name := check_name c; status := pending; message := lit "Checking...";
     details := None |}.

Definition runBattery (checks : list Check) (env : Env) (st : State) : State :=
  let st1 := setIsRunning true st in
  let st2 := setResults (fun _ => List.map pendingResult checks) st1 in
  let st3 := runChecks env 0 checks st2 in
  setIsComplete true (setIsRunning false st3).

(** The state of the freshly mounted component. *)
Definition initialState : State :=
  {| results := []; isRunning := false; isComplete := false; log := [] |}.

Section Battery.
Context {rt : Runtime}.

Definition registered (n : string) (f : Env -> DiagnosticResult) : Check :=
  {| check_name := lit n; check := fun env => Ok (f env) |}.

Definition checks : list Check := [
  registered "WebRTC Support" checkWebRTC;
  registered "WebGL Support" checkWebGL;
  registered "Service Workers" checkServiceWorkers;
  registered "IndexedDB Support" checkIndexedDB;
  registered "Audio Context" checkAudioContext;
  registered "Camera Permissions" checkCameraPermissions;
  registered "Microphone Permissions" checkMicrophonePermissions;
  registered "Notification Permissions" checkNotificationPermissions;
  registered "Bot Detection" checkBotDetection
].

Definition runDiagnostics (env : Env) (st : State) : State :=
  runBattery checks env st.

Definition passedCount (st : State) : nat :=
  length (List.filter (fun r => bool_decide (status r = passed)) (results st)).
Definition failedCount (st : State) : nat :=
  length (List.filter (fun r => bool_decide (status r = failed)) (results st)).
Definition skippedCount (st : State) : nat :=
  length (List.filter (fun r => bool_decide (status r = skipped)) (results st)).
Definition pendingCount (st : State) : nat :=
  length (List.filter (fun r => bool_decide (status r = pending)) (results st)).

End Battery.

End Diagnostic.

(** ** What a regular expression matches

    The language of an expression, as a relation; the derivative matcher
    [Regex.test] is proved to decide it. *)

Module RegexSemantics.
Import JS Regex.

Inductive Matches : re -> jsstring -> Prop :=
| MEps : Matches Eps []
| MClass (cls : N -> bool) (c : N) :
    cls c = true -> Matches (Class cls) [c]
| MCat (r1 r2 : re) (s1 s2 : jsstring) :
    Matches r1 s1 -> Matches r2 s2 -> Matches (Cat r1 r2) (s1 ++ s2)
| MAltL (r1 r2 : re) (s : jsstring) :
    Matches r1 s -> Matches (Alt r1 r2) s
| MAltR (r1 r2 : re) (s : jsstring) :
    Matches r2 s -> Matches (Alt r1 r2) s
| MStarNil (r : re) : Matches (Star r) []
| MStarApp (r : re) (s1 s2 : jsstring) :
    Matches r s1 -> Matches (Star r) s2 -> Matches (Star r) (s1 ++ s2).

(** Every code unit of [s] is in the class [cls]. *)
Definition allIn (cls : N -> bool) (s : jsstring) : Prop :=
  forall c, In c s -> cls c = true.

End RegexSemantics.

(** ** Character classes used to describe accepted values *)

Module Shapes.
Import JS Regex.

(** [[a-zA-Z0-9._-]]: what [sanitize.email] keeps, without the at sign. *)
Definition emailAtom (c : N) : bool :=
  alpha c || digit c || isChar "." c || isChar "_" c || isChar "-" c.

(** [[\d\s\-\(\)\.]]: the class of the body of the phone pattern. *)
Definition phoneBody (c : N) : bool :=
  digit c || isWhiteSpace c || isChar "-" c || isChar "(" c || isChar ")" c
  || isChar "." c.

(** [[^\s@]]: the class of the three runs of the email pattern. *)
Definition notSpaceAt (c : N) : bool :=
  negb (isWhiteSpace c || isChar "@" c).

(** The number of occurrences of a code unit. *)
Definition occurrences (x : N) (s : jsstring) : nat :=
  length (List.filter (fun c => (c =? x)%N) s).

End Shapes.

(** ** Describing a run of [withRetry] *)

Module RetryModel.
Import Validation.

Section Retry.
Context {W T E : Type}.

(** The world after [k] invocations of the operation. *)
Fixpoint worldAfter (operation : Operation (W := W) (T := T) (E := E))
    (k : nat) (w : W) : W :=
  match k with
  | O => w
  | S k' => worldAfter operation k' (snd (operation w))
  end.

(** The result of the invocation number [j] (from 0). *)
Definition resultAt (operation : Operation (W := W) (T := T) (E := E))
    (j : nat) (w : W) : T + E :=
  fst (operation (worldAfter operation j w)).

Definition failed (r : T + E) : Prop :=
  match r with inl _ => False | inr _ => True end.

(** How [withRetry] settles on the result of its last invocation. *)
Definition settle (r : T + E) : T + option E :=
  match r with
  | inl value => inl value
  | inr err => inr (Some err)
  end.

End Retry.

(** The first [n] backoff waits: [delay], [2 * delay], [4 * delay], ... *)
Definition backoff (delay : Z) (n : nat) : list Z :=
  List.map (fun j => delay * 2 ^ Z.of_nat j) (seq 0 n).

Definition total (l : list Z) : Z := fold_right Z.add 0 l.

End RetryModel.

(** ** Several generations in a row *)

Module History.
Import JS QRGenerator.

(** One call of [saveToHistory]: how the write to the storage completes,
    the two clock readings and the arguments. *)
Record Save := {
  save_setItem : Completion;
  save_now_id : Z;
  save_now_ts : Z;
  save_content : jsstring;
  save_qrDataUrl : jsstring
}.

(** The calls in order, each on the state the previous one left. *)
Definition saveAll (saves : list Save) (st : State) : State :=
  fold_left
    (fun st' sv =>
       fst (saveToHistory (save_setItem sv) (save_now_id sv) (save_now_ts sv)
              (save_content sv) (save_qrDataUrl sv) st'))
    saves st.

(** The entry that a call adds. *)
Definition entryOf (st : State) (sv : Save) : QRHistory :=
  {| entryId := Number_toString (save_now_id sv);
     content := save_content sv;
     template := name (selectedTemplate st);
     timestamp := save_now_ts sv;
     qrDataUrl := save_qrDataUrl sv |}.

End History.

(** ** [src/app/page.tsx]: the diagnostics of the start page *)

Module Page.
Import JS Diagnostic.

(** An element of [results]: [{ name, status }]. *)
Record Entry := {
  entry_name : jsstring;
  entry_status : Status
}.

Definition push (n : string) (s : Status) : Entry :=
  {| entry_name := lit n; entry_status := s |}.

Section WithRuntime.
Context {rt : Runtime}.

(** [runDiagnostics] of the page, up to [setDiagnosticResults(results)]:
    the nine entries pushed, in order. *)
Definition runDiagnostics (env : Env) : list Entry :=
  [ match rtcPeerConnection env with
    | Ok _ => push "WebRTC Support" passed
    | Throw _ => push "WebRTC Support" failed
    end;
    match getContext env webgl with
    | Throw _ => push "WebGL Support" failed
    | Ok true => push "WebGL Support" passed
    | Ok false =>
        match getContext env experimental_webgl with
        | Throw _ => push "WebGL Support" failed
        | Ok gl => push "WebGL Support" (if gl then passed else failed)
        end
    end;
    push "Service Workers"
      (if serviceWorker_in_navigator env then passed else failed);
    push "IndexedDB Support"
      (if indexedDB_in_window env then passed else failed);
    match audioContext env with
    | Some (Ok _) => push "Audio Context" passed
    | None => push "Audio Context" failed
    | Some (Throw _) => push "Audio Context" failed
    end;
    (if negb (getUserMedia_present env)
     then push "Camera Permissions" failed
     else match getUserMedia env video with
          | Ok _ => push "Camera Permissions" passed
          | Throw e =>
              if eqb (err_name e) (lit "NotAllowedError")
              then push "Camera Permissions" failed
              else if eqb (err_name e) (lit "NotFoundError")
              then push "Camera Permissions" skipped
              else push "Camera Permissions" failed
          end);
    (if negb (getUserMedia_present env)
     then push "Microphone Permissions" failed
     else match getUserMedia env audio with
          | Ok _ => push "Microphone Permissions" passed
          | Throw e =>
              if eqb (err_name e) (lit "NotAllowedError")
              then push "Microphone Permissions" failed
              else if eqb (err_name e) (lit "NotFoundError")
              then push "Microphone Permissions" skipped
              else push "Microphone Permissions" failed
          end);
    match notification_permission env with
    | None => push "Notification Permissions" failed
    | Some granted => push "Notification Permissions" passed
    | Some denied => push "Notification Permissions" failed
    | Some default =>
        match requestPermission env with
        | Ok permission =>
            push "Notification Permissions"
              (match permission with granted => passed | _ => failed end)
        | Throw _ => push "Notification Permissions" failed
        end
    end;
    (let humanScore := humanScore (heuristics env) in
     push "Bot Detection"
       (if Qle_bool (7 # 10) humanScore then passed
        else if Qle_bool (4 # 10) humanScore then skipped
        else failed)) ].

End WithRuntime.

End Page.

(** ** Reading the log of a diagnostic run *)

Module Progress.
Import JS Diagnostic.

(** The result lists that a run displayed, in order. *)
Fixpoint snapshots (evs : list Event) : list (list DiagnosticResult) :=
  match evs with
  | [] => []
  | SetResults rs :: rest => rs :: snapshots rest
  | _ :: rest => snapshots rest
  end.

(** The pacing delays of a run, in order. *)
Fixpoint delays (evs : list Event) : list Z :=
  match evs with
  | [] => []
  | Delay ms :: rest => ms :: delays rest
  | _ :: rest => delays rest
  end.

End Progress.

(** ** [generateQR] of [src/components/QRGenerator.tsx] *)

Module SimpleGenerator.
Import JS QRGenerator.

(** [QRCode.toDataURL(content, options)] for the current colours: the data
    URL, or the engine's error. *)
Definition Engine := jsstring -> Diagnostic.Try jsstring.

(** The start of [generateQR]: the two checks on the trimmed text, then the
    formatting. *)
Definition generateQR_content (st : State) : Generated :=
  let trimmedText := trim (input st) in
  if negb (truthy trimmedText)
  then Rejected (lit "Please enter some content to generate a QR code")
  else if 2000 <? len trimmedText
  then Rejected
         (lit "Content is too long. Please keep it under 2000 characters")
  else Formatted (format (selectedTemplate st) trimmedText).

(** [generateQR]: the state afterwards and the toast.  [setItem] is how the
    host completes the write of [saveToHistory]; an exception of the engine
    or of that write reaches the [catch] block. *)
Definition generateQR (toDataURL : Engine) (setItem : Completion)
    (now_id now_ts : Z) (st : State) : State * jsstring :=
  match generateQR_content st with
  | Rejected toast => (st, toast)
  | Formatted formattedContent =>
      match toDataURL formattedContent with
      | Diagnostic.Ok dataUrl =>
          match saveToHistory setItem now_id now_ts formattedContent dataUrl st
          with
          | (st', Returned) => (st', lit "QR code generated successfully!")
          | (st', Thrown) =>
              (st', lit "Failed to generate QR code. Please try again.")
          end
      | Diagnostic.Throw _ =>
          (st, lit "Failed to generate QR code. Please try again.")
      end
  end.

(** [loadFromHistory(historyItem)]: the text field takes the content of the
    entry; the selected template stays. *)
Definition loadFromHistory (historyItem : QRHistory) (st : State) : State :=
  {| input := content historyItem;
     selectedTemplate := selectedTemplate st;
     qrHistory := qrHistory st;
     validationError := validationError st;
     stored := stored st |}.

(** [selectTemplate(template)] *)
Definition selectTemplate (template : QRTemplate) (st : State) : State :=
  {| input := [];
     selectedTemplate := template;
     qrHistory := qrHistory st;
     validationError := validationError st;
     stored := stored st |}.

End SimpleGenerator.

(** ** [safeLocalStorage] and the persisted history *)

Module Persistence.
Import JS.

(** [JSON.stringify] and [JSON.parse] on the values of type [V] that the
    program stores; [None] is a thrown exception. *)
Class JSON (V : Type) := {
  JSON_stringify : V -> option jsstring;
  JSON_parse : jsstring -> option V
}.

(** The [localStorage] of the host: the items, whether the storage can be
    accessed at all (else every access throws), and which writes it accepts
    (else [setItem] throws, as when the quota is exceeded). *)
Record LocalStorage := {
  items : gmap (list N) (list N);
  accessible : bool;
  accepts : jsstring -> jsstring -> bool
}.

Definition withItems (ls : LocalStorage) (m : gmap (list N) (list N))
  : LocalStorage :=
  {| items := m; accessible := accessible ls; accepts := accepts ls |}.

Section SafeLocalStorage.
Context {V : Type} `{JSON V}.

(** [safeLocalStorage.get(key, defaultValue)] *)
Definition get (ls : LocalStorage) (key : jsstring) (defaultValue : V) : V :=
  if accessible ls then
    match items ls !! key with
    | Some item =>
        if truthy item then
          match JSON_parse item with
          | Some value => value
          | None => defaultValue
          end
        else defaultValue
    | None => defaultValue
    end
  else defaultValue.

(** [safeLocalStorage.set(key, value)]: the returned flag and the storage
    afterwards. *)
Definition set (ls : LocalStorage) (key : jsstring) (value : V)
  : bool * LocalStorage :=
  if accessible ls then
    match JSON_stringify value with
    | Some text =>
        if accepts ls key text
        then (true, withItems ls (<[key := text]> (items ls)))
        else (false, ls)
    | None => (false, ls)
    end
  else (false, ls).

End SafeLocalStorage.

(** [safeLocalStorage.remove(key)] *)
Definition remove (ls : LocalStorage) (key : jsstring)
  : bool * LocalStorage :=
  if accessible ls
  then (true, withItems ls (delete key (items ls)))
  else (false, ls).

Section History.
Context `{JSON (list QRGenerator.QRHistory)}.

Definition historyKey : jsstring := lit "qrHistory".

(** The history that the validated generator loads when it mounts:
    [safeLocalStorage.get('qrHistory', [])]. *)
Definition loadHistory (ls : LocalStorage) : list QRGenerator.QRHistory :=
  get ls historyKey [].

(** [saveToHistory] of the validated generator; [newId] is the value of
    [utils.generateId()] and [now] that of [Date.now()].  The result is the
    component state, the storage and the error toast, if any. *)
Definition saveToHistory (newId : jsstring) (now : Z)
    (content qrDataUrl : jsstring) (st : QRGenerator.State)
    (ls : LocalStorage)
  : QRGenerator.State * LocalStorage * option jsstring :=
  let newEntry :=
    {| QRGenerator.entryId := newId;
       QRGenerator.content := content;
       QRGenerator.template :=
         QRGenerator.name (QRGenerator.selectedTemplate st);
       QRGenerator.timestamp := now;
       QRGenerator.qrDataUrl := qrDataUrl |} in
  let updated := newEntry :: take 9 (QRGenerator.qrHistory st) in
  let st' :=
    {| QRGenerator.input := QRGenerator.input st;
       QRGenerator.selectedTemplate := QRGenerator.selectedTemplate st;
       QRGenerator.qrHistory := updated;
       QRGenerator.validationError := QRGenerator.validationError st;
       QRGenerator.stored := QRGenerator.stored st |} in
  let '(saved, ls') := set ls historyKey updated in
  (st', ls',
   if saved then None
   else Some (lit "Failed to save to history. Storage may be full.")).

End History.

End Persistence.

(** ** Sample data for running the definitions *)

Module Examples.
Import JS Validation.

(** An operation over a call counter: the call number [n] (from 0) fails
    with [n] as its error while [n < failures], and then yields [42]. *)
Definition flaky (failures : nat) : Operation (W := nat) (T := Z) (E := nat) :=
  fun n => if (n <? failures)%nat then (inr n, S n) else (inl 42, S n).

(** A history entry that carries [n] as its content and timestamp. *)
Definition entry (n : Z) : QRGenerator.QRHistory :=
  {| QRGenerator.entryId := Number_toString n;
     QRGenerator.content := Number_toString n;
     QRGenerator.template := lit "Text";
     QRGenerator.timestamp := n;
     QRGenerator.qrDataUrl := lit "data:image/png;base64,AAAA" |}.

(** A generator whose history holds the entries [10, 9, .., 1], newest
    first. *)
Definition fullHistory : QRGenerator.State :=
  {| QRGenerator.input := lit "hello";
     QRGenerator.selectedTemplate := QRGenerator.textTemplate;
     QRGenerator.qrHistory :=
       List.map entry [10; 9; 8; 7; 6; 5; 4; 3; 2; 1];
     QRGenerator.validationError := None;
     QRGenerator.stored := None |}.

(** The WiFi generator after the user typed [value] and the debounced
    validation settled. *)
Definition wifiTyped (value : jsstring) : QRGenerator.State :=
  {| QRGenerator.input := value;
     QRGenerator.selectedTemplate := QRGenerator.wifiTemplate;
     QRGenerator.qrHistory := [];
     QRGenerator.validationError :=
       QRGenerator.validateInput (rt := asciiRuntime) QRGenerator.wifi value;
     QRGenerator.stored := None |}.

(** A desktop browser without camera and microphone, where the pointer
    moved during the probe; with [slowTimer] the 10 ms timer took 16 ms,
    else 11 ms. *)
Definition desktop (slowTimer : bool) : Diagnostic.Env :=
  {| Diagnostic.rtcPeerConnection := Diagnostic.Ok tt;
     Diagnostic.getContext := fun _ => Diagnostic.Ok true;
     Diagnostic.serviceWorker_in_navigator := true;
     Diagnostic.indexedDB_in_window := true;
     Diagnostic.audioContext := Some (Diagnostic.Ok tt);
     Diagnostic.getUserMedia_present := true;
     Diagnostic.getUserMedia := fun _ =>
       Diagnostic.Throw
         {| Diagnostic.err_name := lit "NotFoundError";
            Diagnostic.err_message := lit "Requested device not found" |};
     Diagnostic.notification_permission := Some Diagnostic.denied;
     Diagnostic.requestPermission := Diagnostic.Ok Diagnostic.denied;
     Diagnostic.timingVariance := if slowTimer then 16 # 1 else 11 # 1;
     Diagnostic.mouseMoved := true;
     Diagnostic.hardwareConcurrency := Some 1;
     Diagnostic.userAgent := lit "Mozilla/5.0 (X11; Linux x86_64)" |}.

(** The contact generator after the user typed [value] and the debounced
    validation settled. *)
Definition contactTyped (value : jsstring) : QRGenerator.State :=
  {| QRGenerator.input := value;
     QRGenerator.selectedTemplate := QRGenerator.contactTemplate;
     QRGenerator.qrHistory := [];
     QRGenerator.validationError :=
       QRGenerator.validateInput (rt := asciiRuntime) QRGenerator.contact
         value;
     QRGenerator.stored := None |}.

(** A stand-in for JSON on strings: the text of a string is the string
    between two double quotes (JSON itself for strings without quotes,
    backslashes and control characters). *)
Definition quoted : Persistence.JSON jsstring :=
  {| Persistence.JSON_stringify := fun s => Some (34%N :: s ++ [34%N]);
     Persistence.JSON_parse := fun t =>
       match t with
       | 34%N :: r =>
           match rev r with
           | 34%N :: body => Some (rev body)
           | _ => None
           end
       | _ => None
       end |}.

(** A storage that holds the two colour preferences and accepts texts of up
    to [quota] code units. *)
Definition colourStore (quota : nat) : Persistence.LocalStorage :=
  {| Persistence.items :=
       <[lit "qrForegroundColor" := 34%N :: lit "#000000" ++ [34%N]]>
         (<[lit "qrBackgroundColor" := 34%N :: lit "#FFFFFF" ++ [34%N]]> ∅);
     Persistence.accessible := true;
     Persistence.accepts := fun _ text => (length text <=? quota)%nat |}.

(** A stand-in for JSON on histories: every string is written as its
    length followed by its code units, a timestamp as a sign and a
    magnitude, a history as its length followed by its entries. *)
Definition writeString (s : jsstring) : jsstring := N.of_nat (length s) :: s.

Definition writeEntry (e : QRGenerator.QRHistory) : jsstring :=
  writeString (QRGenerator.entryId e)
  ++ writeString (QRGenerator.content e)
  ++ writeString (QRGenerator.template e)
  ++ [if QRGenerator.timestamp e <? 0 then 1%N else 0%N;
      Z.abs_N (QRGenerator.timestamp e)]
  ++ writeString (QRGenerator.qrDataUrl e).

Definition readString (t : jsstring) : option (jsstring * jsstring) :=
  match t with
  | n :: r =>
      if (N.to_nat n <=? length r)%nat
      then Some (take (N.to_nat n) r, drop (N.to_nat n) r)
      else None
  | [] => None
  end.

Definition readEntry (t : jsstring)
  : option (QRGenerator.QRHistory * jsstring) :=
  match readString t with
  | Some (i, t1) =>
      match readString t1 with
      | Some (c, t2) =>
          match readString t2 with
          | Some (tp, sign :: magnitude :: t3) =>
              match readString t3 with
              | Some (u, t4) =>
                  Some ({| QRGenerator.entryId := i;
                           QRGenerator.content := c;
                           QRGenerator.template := tp;
                           QRGenerator.timestamp :=
                             if (sign =? 0)%N then Z.of_N magnitude
                             else - Z.of_N magnitude;
                           QRGenerator.qrDataUrl := u |}, t4)
              | None => None
              end
          | _ => None
          end
      | None => None
      end
  | None => None
  end.

Fixpoint readEntries (n : nat) (t : jsstring)
  : option (list QRGenerator.QRHistory) :=
  match n with
  | O => match t with [] => Some [] | _ => None end
  | S n' =>
      match readEntry t with
      | Some (e, t') =>
          match readEntries n' t' with
          | Some es => Some (e :: es)
          | None => None
          end
      | None => None
      end
  end.

Definition historyCodec : Persistence.JSON (list QRGenerator.QRHistory) :=
  {| Persistence.JSON_stringify := fun l =>
       Some (N.of_nat (length l) :: concat (List.map writeEntry l));
     Persistence.JSON_parse := fun t =>
       match t with
       | n :: r => readEntries (N.to_nat n) r
       | [] => None
       end |}.

(** An engine that encodes everything but the empty content. *)
Definition engine : SimpleGenerator.Engine :=
  fun c =>
    match c with
    | [] => Diagnostic.Throw
              {| Diagnostic.err_name := lit "Error";
                 Diagnostic.err_message := lit "No input text" |}
    | _ => Diagnostic.Ok (lit "data:image/png;base64," ++ c)
    end.

(** The simple generator with the given template and typed text. *)
Definition typed (t : QRGenerator.QRTemplate) (value : jsstring)
  : QRGenerator.State :=
  {| QRGenerator.input := value;
     QRGenerator.selectedTemplate := t;
     QRGenerator.qrHistory := [];
     QRGenerator.validationError := None;
     QRGenerator.stored := None |}.


(** Two further generations, at the times 11 and 12; the host refuses the
    first write and takes the second. *)
Definition twoSaves : list History.Save :=
  [{| History.save_setItem := QRGenerator.Thrown;
      History.save_now_id := 11; History.save_now_ts := 11;
      History.save_content := lit "eleven";
      History.save_qrDataUrl := lit "data:," |};
   {| History.save_setItem := QRGenerator.Returned;
      History.save_now_id := 12; History.save_now_ts := 12;
      History.save_content := lit "twelve";
      History.save_qrDataUrl := lit "data:," |}].

End Examples.

(** * Properties *)

(** ** Strings *)

Module JSFacts.
Import JS.

Lemma split_not_nil (sep : N) (s : jsstring) : split sep s <> [].
Proof.
  destruct s as [|c t]; simpl; [discriminate|].
  destruct (c =? sep)%N; [discriminate|].
  destruct (split sep t); discriminate.
Qed.

(** Every code unit of a part of [s.split(sep)] is a code unit of [s]. *)
Lemma split_parts_from (sep : N) (s p : jsstring) (c : N) :
  In p (split sep s) -> In c p -> In c s.
Proof.
  revert p. induction s as [|x t IH]; intros p Hp Hc; simpl in Hp.
  - destruct Hp as [<-|[]]. destruct Hc.
  - destruct (x =? sep)%N.
    + destruct Hp as [<-|Hp]; [destruct Hc|]. right. eauto.
    + destruct (split sep t) as [|q qs] eqn:Hsplit.
      * destruct Hp as [<-|[]]. destruct Hc as [->|[]]. now left.
      * destruct Hp as [<-|Hp].
        -- destruct Hc as [->|Hc]; [now left|]. right.
           apply (IH q); [now left|exact Hc].
        -- right. apply (IH p); [now right|exact Hc].
Qed.

Lemma removeClass_not_In (cls : N -> bool) (s : jsstring) (c : N) :
  cls c = true -> ~ In c (removeClass cls s).
Proof.
  intros Hc Hin. apply filter_In in Hin as [_ Hn].
  rewrite Hc in Hn. discriminate.
Qed.

Lemma removeClass_id (cls : N -> bool) (s : jsstring) :
  (forall c, In c s -> cls c = false) -> removeClass cls s = s.
Proof.
  induction s as [|x t IH]; intros H; simpl; [reflexivity|].
  rewrite (H x) by now left. simpl. f_equal. apply IH.
  intros c Hc. apply H. now right.
Qed.

Lemma removeClass_length (cls : N -> bool) (s : jsstring) :
  (length (removeClass cls s) <= length s)%nat.
Proof.
  induction s as [|x t IH]; simpl; [lia|].
  destruct (cls x); simpl; lia.
Qed.

Lemma trimStart_In (s : jsstring) (c : N) : In c (trimStart s) -> In c s.
Proof.
  induction s as [|x t IH]; simpl; [tauto|].
  destruct (isWhiteSpace x); [right; now apply IH|tauto].
Qed.

Lemma trimEnd_In (s : jsstring) (c : N) : In c (trimEnd s) -> In c s.
Proof.
  unfold trimEnd. intros H. apply in_rev in H. apply trimStart_In in H.
  now apply in_rev.
Qed.

Lemma trim_In (s : jsstring) (c : N) : In c (trim s) -> In c s.
Proof.
  unfold trim. intros H. now apply trimStart_In, trimEnd_In.
Qed.

Lemma trimStart_length (s : jsstring) :
  (length (trimStart s) <= length s)%nat.
Proof.
  induction s as [|x t IH]; simpl; [lia|].
  destruct (isWhiteSpace x); simpl; lia.
Qed.

Lemma trim_length (s : jsstring) : (length (trim s) <= length s)%nat.
Proof.
  unfold trim, trimEnd. rewrite length_rev.
  etransitivity; [apply trimStart_length|]. rewrite length_rev.
  apply trimStart_length.
Qed.

Lemma forallb_rev (f : N -> bool) (s : jsstring) :
  forallb f (rev s) = forallb f s.
Proof.
  induction s as [|x t IH]; [reflexivity|].
  simpl. rewrite forallb_app, IH. simpl.
  destruct (f x), (forallb f t); reflexivity.
Qed.

(** [trimStart] acts on a string with one more code unit at its end. *)
Lemma trimStart_snoc (s : jsstring) (c : N) :
  trimStart (s ++ [c]) =
  if forallb isWhiteSpace s then trimStart [c] else trimStart s ++ [c].
Proof.
  induction s as [|x t IH]; [reflexivity|].
  cbn [app trimStart forallb]. destruct (isWhiteSpace x); simpl; [exact IH|].
  reflexivity.
Qed.

Lemma trimStart_all_space (s : jsstring) :
  forallb isWhiteSpace s = true -> trimStart s = [].
Proof.
  induction s as [|x t IH]; simpl; [reflexivity|].
  destruct (isWhiteSpace x); simpl; [exact IH|discriminate].
Qed.

(** [trimEnd] by its first code unit. *)
Lemma trimEnd_cons (c : N) (s : jsstring) :
  trimEnd (c :: s) =
  if forallb isWhiteSpace s
  then (if isWhiteSpace c then [] else [c])
  else c :: trimEnd s.
Proof.
  unfold trimEnd. simpl rev. rewrite trimStart_snoc.
  rewrite forallb_rev.
  destruct (forallb isWhiteSpace s) eqn:Hs.
  - simpl. destruct (isWhiteSpace c); reflexivity.
  - rewrite rev_app_distr. reflexivity.
Qed.

Lemma trimEnd_all_space (s : jsstring) :
  forallb isWhiteSpace s = true -> trimEnd s = [].
Proof.
  intros H. unfold trimEnd. rewrite trimStart_all_space; [reflexivity|].
  now rewrite forallb_rev.
Qed.

(** The last code unit that is not white space survives [trimEnd]. *)
Lemma trimEnd_not_all_space (s : jsstring) :
  forallb isWhiteSpace s = false ->
  forallb isWhiteSpace (trimEnd s) = false.
Proof.
  induction s as [|x t IH]; [discriminate|].
  intros H. simpl in H. rewrite trimEnd_cons.
  destruct (forallb isWhiteSpace t) eqn:Ht.
  - rewrite andb_true_r in H. rewrite H. simpl. now rewrite H.
  - simpl. rewrite IH by reflexivity. apply andb_false_r.
Qed.

Lemma trimEnd_idem (s : jsstring) : trimEnd (trimEnd s) = trimEnd s.
Proof.
  induction s as [|c t IH]; [reflexivity|].
  rewrite trimEnd_cons. destruct (forallb isWhiteSpace t) eqn:Ht.
  - destruct (isWhiteSpace c) eqn:Hc; [reflexivity|].
    rewrite trimEnd_cons. simpl. now rewrite Hc.
  - rewrite trimEnd_cons, IH, (trimEnd_not_all_space _ Ht). reflexivity.
Qed.

Lemma trimStart_fix (c : N) (s : jsstring) :
  isWhiteSpace c = false -> trimStart (c :: s) = c :: s.
Proof. intros H. simpl. now rewrite H. Qed.

(** The head of a left-trimmed string is not white space. *)
Lemma trimStart_head (s : jsstring) :
  match trimStart s with
  | [] => True
  | c :: _ => isWhiteSpace c = false
  end.
Proof.
  induction s as [|x t IH]; simpl; [exact I|].
  destruct (isWhiteSpace x) eqn:Hx; [exact IH|exact Hx].
Qed.

(** [trim] is idempotent. *)
Lemma trim_idem (s : jsstring) : trim (trim s) = trim s.
Proof.
  unfold trim. pose proof (trimStart_head s) as Hh.
  destruct (trimStart s) as [|c t] eqn:Hs; [reflexivity|].
  rewrite trimEnd_cons.
  destruct (forallb isWhiteSpace t) eqn:Ht.
  - rewrite Hh. rewrite trimStart_fix by exact Hh.
    rewrite trimEnd_cons. simpl. now rewrite Hh.
  - rewrite trimStart_fix by exact Hh.
    rewrite trimEnd_cons, (trimEnd_not_all_space _ Ht), trimEnd_idem.
    reflexivity.
Qed.

Lemma removeAll_i_from_In (p : jsstring) (k : nat) (s : jsstring) (c : N) :
  In c (removeAll_i_from p k s) -> In c s.
Proof.
  revert k. induction s as [|x t IH]; intros k; simpl; [tauto|].
  destruct k as [|k]; [|right; eauto].
  destruct p as [|a p']; [simpl; intros [H|H]; eauto|].
  destruct (matchesAt_i (a :: p') (x :: t)); [right; eauto|].
  simpl. intros [H|H]; eauto.
Qed.

Lemma removeAll_i_from_length (p : jsstring) (k : nat) (s : jsstring) :
  (length (removeAll_i_from p k s) <= length s)%nat.
Proof.
  revert k. induction s as [|x t IH]; intros k; simpl; [lia|].
  destruct k as [|k]; [|specialize (IH k); lia].
  destruct p as [|a p']; [simpl; specialize (IH O); lia|].
  destruct (matchesAt_i (a :: p') (x :: t)).
  - specialize (IH (length p')). lia.
  - simpl. specialize (IH O). lia.
Qed.

(** Without an occurrence of the pattern nothing is removed. *)
Lemma removeAll_i_id (p s : jsstring) :
  test_i p s = false -> removeAll_i p s = s.
Proof.
  unfold removeAll_i. induction s as [|x t IH]; [reflexivity|].
  intros H. cbn [test_i] in H. apply orb_false_iff in H as [Hm Ht].
  cbn [removeAll_i_from]. destruct p as [|a p']; [discriminate|].
  rewrite Hm. f_equal. now apply IH.
Qed.

(** With an occurrence the result is strictly shorter. *)
Lemma removeAll_i_shrinks (p s : jsstring) :
  p <> [] -> test_i p s = true ->
  (length (removeAll_i p s) < length s)%nat.
Proof.
  intros Hp. unfold removeAll_i.
  destruct p as [|a p']; [congruence|]. clear Hp.
  induction s as [|x t IH]; [discriminate|].
  intros H. cbn [test_i] in H. cbn [removeAll_i_from].
  destruct (matchesAt_i (a :: p') (x :: t)).
  - pose proof (removeAll_i_from_length (a :: p') (length p') t).
    simpl. lia.
  - simpl in *. specialize (IH H). lia.
Qed.

Lemma forallb_app_false (f : N -> bool) (a t : jsstring) :
  forallb f t = false -> forallb f (a ++ t) = false.
Proof. intros H. rewrite forallb_app, H. apply andb_false_r. Qed.

(** Trimming at the end does not reach into a prefix when what follows
    holds a code unit that is not white space. *)
Lemma trimEnd_app (a t : jsstring) :
  forallb isWhiteSpace t = false -> trimEnd (a ++ t) = a ++ trimEnd t.
Proof.
  intros Ht. induction a as [|c a IH]; [reflexivity|].
  cbn [app]. rewrite trimEnd_cons, (forallb_app_false _ _ _ Ht), IH.
  reflexivity.
Qed.

(** A trimmed string that is not empty is not white space only. *)
Lemma trim_not_all_space (x : jsstring) :
  trim x <> [] -> forallb isWhiteSpace (trim x) = false.
Proof.
  intros Hne. destruct (forallb isWhiteSpace (trim x)) eqn:H; [|reflexivity].
  exfalso. apply Hne. rewrite <- trim_idem. unfold trim at 1.
  pose proof (trimStart_head (trim x)) as Hh.
  destruct (trimStart (trim x)) as [|c r] eqn:Hs; [reflexivity|].
  assert (Hin : In c (trim x)) by (apply trimStart_In; rewrite Hs; now left).
  rewrite forallb_forall in H. rewrite (H c Hin) in Hh. discriminate.
Qed.

(** A prefix that starts with a code unit that is not white space keeps a
    trimmed, non-empty string trimmed. *)
Lemma trim_prefixed (c : N) (a x : jsstring) :
  isWhiteSpace c = false -> trim x <> [] ->
  trim ((c :: a) ++ trim x) = (c :: a) ++ trim x.
Proof.
  intros Hc Hne. unfold trim at 1. cbn [app].
  rewrite trimStart_fix by exact Hc.
  change (c :: a ++ trim x) with ((c :: a) ++ trim x).
  rewrite trimEnd_app by now apply trim_not_all_space.
  f_equal. fold (trim x). unfold trim. now rewrite trimEnd_idem.
Qed.

(** The number conversion on both sides of its two thresholds: integers
    print exactly up to [2^53], with the digits of the nearest Number up to
    21 digits, and in exponent form beyond. *)
Example Number_toString_samples :
  Number_toString 2000 = lit "2000"
  /\ Number_toString (-12) = lit "-12"
  /\ Number_toString (2 ^ 53 + 1) = lit "9007199254740992"
  /\ Number_toString (2 ^ 60) = lit "1152921504606847000"
  /\ Number_toString (10 ^ 21 - 1) = lit "1e+21"
  /\ Number_toString (2 ^ 70) = lit "1.1805916207174113e+21".
Proof. vm_compute. repeat split. Qed.

End JSFacts.

(** ** Sanitizer and validators *)

Module ValidationFacts.
Import JS Regex Validation JSFacts.

(** The angle brackets never survive [sanitize.text]. *)
Lemma sanitize_text_no_brackets (input : jsstring) (c : N) :
  In c (sanitize_text input) -> (isChar "<" c || isChar ">" c) = false.
Proof.
  unfold sanitize_text, removeAll_i. intros H.
  apply trim_In, removeAll_i_from_In, removeAll_i_from_In in H.
  destruct (isChar "<" c || isChar ">" c) eqn:Hc; [|reflexivity].
  exfalso. revert H. now apply removeClass_not_In.
Qed.

(** X2.  [sanitize.text] leaves its own result unchanged exactly when that result
    holds no occurrence of the two removed protocols. *)
Lemma sanitize_text_stable_iff (input : jsstring) :
  sanitize_text (sanitize_text input) = sanitize_text input <->
  test_i (lit "javascript:") (sanitize_text input) = false /\
  test_i (lit "data:") (sanitize_text input) = false.
Proof.
  set (s := sanitize_text input).
  assert (Hcls : removeClass (fun c => isChar "<" c || isChar ">" c) s = s).
  { apply removeClass_id. intros c Hc.
    now apply (sanitize_text_no_brackets input). }
  assert (Htrim : trim s = s) by apply trim_idem.
  split.
  - intros Hfix.
    assert (Hlen : length (sanitize_text s) = length s) by now rewrite Hfix.
    unfold sanitize_text in Hlen. rewrite Hcls in Hlen.
    pose proof (trim_length
      (removeAll_i (lit "data:") (removeAll_i (lit "javascript:") s))) as H1.
    pose proof (removeAll_i_from_length (lit "data:") 0
      (removeAll_i (lit "javascript:") s)) as H2.
    pose proof (removeAll_i_from_length (lit "javascript:") 0 s) as H3.
    fold (removeAll_i (lit "data:") (removeAll_i (lit "javascript:") s)) in H2.
    fold (removeAll_i (lit "javascript:") s) in H3.
    destruct (test_i (lit "javascript:") s) eqn:Hj.
    { apply removeAll_i_shrinks in Hj; [|discriminate].
      lia. }
    split; [reflexivity|].
    destruct (test_i (lit "data:") s) eqn:Hd; [|reflexivity].
    rewrite (removeAll_i_id _ _ Hj) in *.
    apply removeAll_i_shrinks in Hd; [|discriminate].
    lia.
  - intros [Hj Hd]. unfold sanitize_text at 1. fold s. rewrite Hcls.
    rewrite (removeAll_i_id _ _ Hj), (removeAll_i_id _ _ Hd). exact Htrim.
Qed.

(** C1 (the code breaks it).  [sanitize.text] is not idempotent: the removal
    of [javascript:] makes one pass, and on [javajavascript:script:] the
    pieces around the removed occurrence join to a new [javascript:], which
    only a second application removes. *)
Theorem sanitize_text_not_idempotent :
  sanitize_text (lit "javajavascript:script:") = lit "javascript:" /\
  sanitize_text (sanitize_text (lit "javajavascript:script:")) = [] /\
  sanitize_text (sanitize_text (lit "javajavascript:script:"))
  <> sanitize_text (lit "javajavascript:script:").
Proof.
  repeat split; try (vm_compute; reflexivity).
  vm_compute. discriminate.
Qed.

Lemma includes_In (arr : list jsstring) (x : jsstring) :
  includes arr x = true <-> In x arr.
Proof.
  unfold includes. rewrite existsb_exists. split.
  - intros (y & Hy & Heq). apply bool_decide_eq_true in Heq. now subst.
  - intros H. exists x. split; [exact H|]. now apply bool_decide_eq_true.
Qed.

Lemma truthy_false (s : jsstring) : truthy s = false <-> s = [].
Proof. destruct s; simpl; split; congruence. Qed.

Section Validators.
Context {rt : Runtime}.

(** C2.  With fewer than three comma parts in the sanitized input,
    [validate.wifi] fails with the message that asks for the three fields;
    with at least three parts, a non-empty trimmed ssid and password and a
    trimmed security type whose upper-case form is one of WPA, WPA2, WPA3,
    WEP, NONE, it succeeds and returns the sanitized input. *)
Theorem validate_wifi_spec (input : jsstring) :
  let sanitized := sanitize_wifi input in
  let parts := split (chr ",") sanitized in
  ((length parts < 3)%nat ->
   validate_wifi input =
   {| isValid := false;
      error := Some (lit "Please provide: NetworkName,Password,SecurityType");
      sanitizedValue := None |})
  /\
  (forall p0 p1 p2 : jsstring,
     (3 <= length parts)%nat ->
     parts !! 0%nat = Some p0 ->
     parts !! 1%nat = Some p1 ->
     parts !! 2%nat = Some p2 ->
     trim p0 <> [] ->
     trim p1 <> [] ->
     In (toUpperCase (trim p2))
        [lit "WPA"; lit "WPA2"; lit "WPA3"; lit "WEP"; lit "NONE"] ->
     validate_wifi input =
     {| isValid := true; error := None; sanitizedValue := Some sanitized |}).
Proof.
  intros sanitized parts. unfold validate_wifi.
  fold sanitized. fold parts.
  destruct parts as [|q0 [|q1 [|q2 rest]]]; split;
    try (simpl; intros; first [reflexivity | lia]).
  intros p0 p1 p2 _ E0 E1 E2 H0 H1 Hsec.
  simpl in E0, E1, E2. injection E0 as <-. injection E1 as <-.
  injection E2 as <-. cbv zeta.
  destruct (truthy (trim q0)) eqn:T0;
    [|apply truthy_false in T0; contradiction].
  destruct (truthy (trim q1)) eqn:T1;
    [|apply truthy_false in T1; contradiction].
  apply (includes_In validSecurity) in Hsec. rewrite Hsec. reflexivity.
Qed.

Lemma invalid_consistent (msg : jsstring) : consistent (invalid msg).
Proof.
  unfold consistent, invalid; simpl. split; [discriminate|].
  intros [_ H]. discriminate.
Qed.

Lemma valid_consistent (v : jsstring) : consistent (valid v).
Proof.
  unfold consistent, valid; simpl. split; [|reflexivity].
  intros _. split; [now exists v|reflexivity].
Qed.

Create HintDb validation.
#[local] Hint Resolve invalid_consistent valid_consistent : validation.

(** Case analysis on the guards of a validator, one early return each. *)
Ltac guards :=
  repeat (match goal with
          | |- consistent (if ?b then _ else _) => destruct b
          end; cbv zeta; auto with validation).

Lemma validate_text_consistent (input : jsstring)
    (options : ValidationOptions) :
  (forall custom, customValidator options = Some custom ->
                  forall s, consistent (custom s)) ->
  consistent (validate_text input options).
Proof.
  intros Hcustom. unfold validate_text. guards.
  destruct (customValidator options) as [custom|] eqn:Hc;
    auto with validation.
Qed.

Lemma validate_url_consistent (input : jsstring) :
  consistent (validate_url input).
Proof. unfold validate_url. destruct (URL_href _); auto with validation. Qed.

Lemma validate_email_consistent (input : jsstring) :
  consistent (validate_email input).
Proof. unfold validate_email. guards. Qed.

Lemma validate_phone_consistent (input : jsstring) :
  consistent (validate_phone input).
Proof. unfold validate_phone. guards. Qed.

Lemma validate_wifi_consistent (input : jsstring) :
  consistent (validate_wifi input).
Proof.
  unfold validate_wifi.
  destruct (split _ _) as [|q0 [|q1 [|q2 rest]]]; auto with validation.
  guards.
Qed.

Lemma validate_contact_consistent (input : jsstring) :
  consistent (validate_contact input).
Proof.
  unfold validate_contact.
  destruct (split _ _) as [|q0 [|q1 [|q2 rest]]]; auto with validation.
  guards.
Qed.

(** C9.  Each of the six validators returns a result that is valid exactly
    when the sanitized value is present and the error is absent; for
    [validate.text] provided a supplied [customValidator] returns such
    results itself. *)
Theorem validators_consistent (input : jsstring) :
  (forall options : ValidationOptions,
     (forall custom, customValidator options = Some custom ->
                     forall s, consistent (custom s)) ->
     consistent (validate_text input options))
  /\ consistent (validate_url input)
  /\ consistent (validate_email input)
  /\ consistent (validate_phone input)
  /\ consistent (validate_wifi input)
  /\ consistent (validate_contact input).
Proof.
  split; [intros options; apply validate_text_consistent|].
  split; [apply validate_url_consistent|].
  split; [apply validate_email_consistent|].
  split; [apply validate_phone_consistent|].
  split; [apply validate_wifi_consistent|apply validate_contact_consistent].
Qed.

(** C10, as amended.  When [validate.wifi] accepts, its sanitized value is
    the output of [sanitize.wifi] and holds neither a semicolon nor a double
    quote, and so does every comma part of it. *)
Theorem validate_wifi_sanitized_clean (input : jsstring) :
  isValid (validate_wifi input) = true ->
  sanitizedValue (validate_wifi input) = Some (sanitize_wifi input)
  /\ ~ In (chr ";") (sanitize_wifi input)
  /\ ~ In 34%N (sanitize_wifi input)
  /\ (forall part, In part (split (chr ",") (sanitize_wifi input)) ->
                   ~ In (chr ";") part /\ ~ In 34%N part).
Proof.
  intros Hvalid.
  assert (Hsemi : ~ In (chr ";") (sanitize_wifi input)).
  { intros H. apply trim_In in H. revert H. now apply removeClass_not_In. }
  assert (Hquote : ~ In 34%N (sanitize_wifi input)).
  { intros H. apply trim_In in H. revert H. now apply removeClass_not_In. }
  split; [|split; [exact Hsemi|split; [exact Hquote|]]].
  - revert Hvalid. unfold validate_wifi.
    destruct (split _ _) as [|q0 [|q1 [|q2 rest]]]; try discriminate.
    repeat (match goal with
            | |- isValid (if ?b then _ else _) = true -> _ => destruct b
            end; try discriminate).
    reflexivity.
  - intros part Hpart. split; intros Hc.
    + apply Hsemi. eapply split_parts_from; eauto.
    + apply Hquote. eapply split_parts_from; eauto.
Qed.

End Validators.

Lemma validate_wifi_spec_witness :
  validate_wifi (rt := asciiRuntime) (lit "MyNet") =
  {| isValid := false;
     error := Some (lit "Please provide: NetworkName,Password,SecurityType");
     sanitizedValue := None |}
  /\
  validate_wifi (rt := asciiRuntime) (lit "MyNet, pass123 ,wpa2") =
  {| isValid := true; error := None;
     sanitizedValue := Some (lit "MyNet, pass123 ,wpa2") |}.
Proof.
  split.
  - apply (proj1 (validate_wifi_spec (rt := asciiRuntime) (lit "MyNet"))).
    vm_compute. lia.
  - apply (proj2 (validate_wifi_spec (rt := asciiRuntime)
                    (lit "MyNet, pass123 ,wpa2"))
             (lit "MyNet") (lit " pass123 ") (lit "wpa2")).
    + vm_compute. lia.
    + reflexivity.
    + reflexivity.
    + reflexivity.
    + vm_compute. discriminate.
    + vm_compute. discriminate.
    + vm_compute. right. left. reflexivity.
Defined.

Lemma validators_consistent_witness :
  consistent
    (validate_text (lit " MyNet,pass123,WEP ")
       {| maxLength := Some 2000; minLength := None; required := Some true;
          pattern := None;
          customValidator := Some (validate_wifi (rt := asciiRuntime)) |}).
Proof.
  apply (proj1 (validators_consistent (rt := asciiRuntime)
                  (lit " MyNet,pass123,WEP "))).
  intros custom [= <-] s.
  apply (validators_consistent (rt := asciiRuntime) s).
Defined.

Lemma validate_wifi_sanitized_clean_witness :
  sanitizedValue (validate_wifi (rt := asciiRuntime) (lit "My;Net,pass,WPA"))
  = Some (lit "MyNet,pass,WPA")
  /\ ~ In (chr ";") (lit "MyNet,pass,WPA").
Proof.
  destruct (validate_wifi_sanitized_clean (rt := asciiRuntime)
              (lit "My;Net,pass,WPA")) as (Hv & Hs & _).
  - vm_compute. reflexivity.
  - split; [exact Hv|exact Hs].
Defined.

End ValidationFacts.

(** ** Retry executor *)

Module RetryFacts.
Import Validation.

Section Retry.
Context {W T E : Type}.
Implicit Types (operation : Operation (W := W) (T := T) (E := E)).

(** The loop ends whenever the fuel covers the attempts that are left. *)
Lemma retryLoop_total operation (maxRetries delay : Z) (fuel : nat)
    (attempt : Z) (lastError : option E) (waited : list Z) (w : W) :
  maxRetries - attempt + 1 <= Z.of_nat fuel ->
  exists run,
    retryLoop operation maxRetries delay fuel attempt lastError waited w
    = Some run.
Proof.
  revert attempt lastError waited w.
  induction fuel as [|fuel IH]; intros attempt lastError waited w Hfuel;
    cbn [retryLoop]; destruct (attempt <=? maxRetries) eqn:Hle; eauto.
  - apply Z.leb_le in Hle. lia.
  - destruct (operation w) as [[value|err] w']; eauto.
    destruct (attempt =? maxRetries); eauto.
    apply IH. lia.
Qed.

(** [withRetry] always settles: it returns or throws. *)
Lemma withRetry_total operation (maxRetries delay : Z) (w : W) :
  exists run, withRetry operation maxRetries delay w = Some run.
Proof. apply retryLoop_total. lia. Qed.

(** C3.  An operation that fails on its first two invocations and succeeds
    on the third: with three attempts and base delay [d], [withRetry]
    returns the value of the third invocation and waits exactly twice, for
    [d] and then for [2 * d]; there is no wait after the last attempt. *)
Theorem withRetry_third_attempt_succeeds operation (d : Z)
    (w0 w1 w2 w3 : W) (e1 e2 : E) (value : T) :
  operation w0 = (inr e1, w1) ->
  operation w1 = (inr e2, w2) ->
  operation w2 = (inl value, w3) ->
  withRetry operation 3 d w0 =
  Some {| outcome := inl value; waits := [d; 2 * d]; world := w3 |}.
Proof.
  intros H0 H1 H2. unfold withRetry.
  change (Z.to_nat 3) with 3%nat.
  cbn [retryLoop]. change (1 <=? 3) with true. cbv iota. rewrite H0.
  change (1 =? 3) with false. cbv iota.
  change (1 + 1) with 2. change (2 <=? 3) with true. cbv iota. rewrite H1.
  change (2 =? 3) with false. cbv iota.
  change (2 + 1) with 3. change (3 <=? 3) with true. cbv iota. rewrite H2.
  change (2 ^ (1 - 1)) with 1. change (2 ^ (2 - 1)) with 2.
  cbn [app]. do 2 f_equal. f_equal; [lia|]. f_equal. lia.
Qed.

(** C7.  An operation that fails on every invocation: with three attempts
    [withRetry] throws the error of the third attempt itself, not wrapped,
    and not the error of the first attempt. *)
Theorem withRetry_throws_last_error operation (d : Z)
    (w0 w1 w2 w3 : W) (e1 e2 e3 : E) :
  operation w0 = (inr e1, w1) ->
  operation w1 = (inr e2, w2) ->
  operation w2 = (inr e3, w3) ->
  exists run,
    withRetry operation 3 d w0 = Some run
    /\ outcome run = inr (Some e3)
    /\ (e3 <> e1 -> outcome run <> inr (Some e1))
    /\ waits run = [d; 2 * d]
    /\ world run = w3.
Proof.
  intros H0 H1 H2. unfold withRetry.
  change (Z.to_nat 3) with 3%nat.
  cbn [retryLoop]. change (1 <=? 3) with true. cbv iota. rewrite H0.
  change (1 =? 3) with false. cbv iota.
  change (1 + 1) with 2. change (2 <=? 3) with true. cbv iota. rewrite H1.
  change (2 =? 3) with false. cbv iota.
  change (2 + 1) with 3. change (3 <=? 3) with true. cbv iota. rewrite H2.
  change (3 =? 3) with true. cbv iota.
  change (2 ^ (1 - 1)) with 1. change (2 ^ (2 - 1)) with 2.
  eexists. split; [reflexivity|]. cbn [outcome waits world app].
  split; [reflexivity|]. split; [congruence|]. split; [|reflexivity].
  f_equal; [lia|]. f_equal. lia.
Qed.

End Retry.

Lemma withRetry_third_attempt_succeeds_witness :
  withRetry (Examples.flaky 2) 3 500 0%nat =
  Some {| outcome := inl 42; waits := [500; 2 * 500]; world := 3%nat |}.
Proof.
  apply (withRetry_third_attempt_succeeds (Examples.flaky 2) 500
           0%nat 1%nat 2%nat 3%nat 0%nat 1%nat 42); reflexivity.
Defined.

Lemma withRetry_throws_last_error_witness :
  exists run,
    withRetry (Examples.flaky 5) 3 500 0%nat = Some run
    /\ outcome run = inr (Some 2%nat)
    /\ (2%nat <> 0%nat -> outcome run <> inr (Some 0%nat))
    /\ waits run = [500; 2 * 500]
    /\ world run = 3%nat.
Proof.
  apply (withRetry_throws_last_error (Examples.flaky 5) 500
           0%nat 1%nat 2%nat 3%nat 0%nat 1%nat 2%nat); reflexivity.
Defined.

End RetryFacts.

(** ** Generator: templates and history *)

Module GeneratorFacts.
Import JS Validation QRGenerator JSFacts.

(** C4.  [saveToHistory] keeps the history within ten entries whatever its
    length was, and whether the write to the storage returns or throws; on
    a history of exactly ten entries the result has ten entries again, the
    new entry comes first, and the last (tenth) entry is the ninth entry of
    the previous history.  The call completes as the write does; the stored
    snapshot is the new list when the write returns, and stays what it was
    when the write throws. *)
Theorem saveToHistory_bounded (setItem : Completion) (now_id now_ts : Z)
    (content' qrDataUrl' : jsstring) (st : State) :
  let st' := fst (saveToHistory setItem now_id now_ts content' qrDataUrl' st) in
  let newEntry :=
    {| entryId := Number_toString now_id; content := content';
       template := name (selectedTemplate st); timestamp := now_ts;
       qrDataUrl := qrDataUrl' |} in
  (length (qrHistory st') <= 10)%nat
  /\ snd (saveToHistory setItem now_id now_ts content' qrDataUrl' st) = setItem
  /\ stored st' = match setItem with
                  | Returned => Some (qrHistory st')
                  | Thrown => stored st
                  end
  /\ (length (qrHistory st) = 10%nat ->
      length (qrHistory st') = 10%nat
      /\ qrHistory st' !! 0%nat = Some newEntry
      /\ is_Some (qrHistory st !! 8%nat)
      /\ qrHistory st' !! 9%nat = qrHistory st !! 8%nat
      /\ last (qrHistory st') = qrHistory st !! 8%nat).
Proof.
  intros st' newEntry. subst st'.
  cbn [saveToHistory fst snd qrHistory stored].
  fold newEntry. split; [|split; [reflexivity|split; [reflexivity|]]].
  - cbn [length]. rewrite length_take. lia.
  - intros Hlen.
    assert (H8 : is_Some (qrHistory st !! 8%nat)).
    { apply lookup_lt_is_Some. lia. }
    split; [cbn [length]; rewrite length_take; lia|].
    split; [reflexivity|]. split; [exact H8|].
    assert (H9 : (newEntry :: take 9 (qrHistory st)) !! 9%nat
                 = qrHistory st !! 8%nat).
    { change ((newEntry :: take 9 (qrHistory st)) !! 9%nat)
        with (take 9 (qrHistory st) !! 8%nat).
      apply lookup_take_lt. lia. }
    split; [exact H9|].
    rewrite last_lookup. cbn [length]. rewrite length_take.
    replace (Init.Nat.pred (S (9 `min` length (qrHistory st)))) with 9%nat
      by lia.
    exact H9.
Qed.

Lemma saveToHistory_bounded_witness :
  let st' :=
    fst (saveToHistory Thrown 11 11 (lit "11") (lit "data:,")
           Examples.fullHistory) in
  length (qrHistory st') = 10%nat
  /\ content <$> qrHistory st' !! 0%nat = Some (lit "11")
  /\ qrHistory st' !! 9%nat = Some (Examples.entry 2)
  /\ last (qrHistory st') = Some (Examples.entry 2).
Proof.
  destruct (saveToHistory_bounded Thrown 11 11 (lit "11") (lit "data:,")
              Examples.fullHistory) as (_ & _ & _ & H).
  destruct H as (Hlen & Hfirst & _ & Hninth & Hlast); [reflexivity|].
  cbv zeta. split; [exact Hlen|]. split; [now rewrite Hfirst|].
  split; [exact Hninth|exact Hlast].
Defined.

(** C8.  The WiFi template turns [MyNet,pass123,wpa2] into
    [WIFI:T:wpa2;S:MyNet;P:pass123;;], and returns an input with fewer than
    three comma parts as it is. *)
Theorem format_wifi_spec :
  format wifiTemplate (lit "MyNet,pass123,wpa2")
  = lit "WIFI:T:wpa2;S:MyNet;P:pass123;;"
  /\ (forall value : jsstring,
        (length (split (chr ",") value) < 3)%nat ->
        format wifiTemplate value = value).
Proof.
  split; [vm_compute; reflexivity|].
  intros value. cbn [format wifiTemplate]. unfold format_wifi.
  destruct (split (chr ",") value) as [|p0 [|p1 [|p2 rest]]];
    simpl; intros; first [reflexivity | lia].
Qed.

Lemma format_wifi_spec_witness :
  format wifiTemplate (lit "MyNet,pass123") = lit "MyNet,pass123".
Proof.
  apply (proj2 format_wifi_spec (lit "MyNet,pass123")).
  vm_compute. lia.
Defined.

(** The six templates have six different ids, and the WiFi template is
    the one with the id [wifi]. *)
Lemma qrTemplates_ids :
  List.map id qrTemplates = [text; url; wifi; contact; email; phone]
  /\ NoDup (List.map id qrTemplates).
Proof.
  split; [reflexivity|].
  cbn. repeat (apply NoDup_cons; split;
               [rewrite ?not_elem_of_cons; repeat split;
                first [discriminate | apply not_elem_of_nil]|]).
  apply NoDup_nil_2.
Qed.

(** The vCard example of the contact template. *)
Lemma format_contact_example :
  format contactTemplate (lit "Jane,555-1234,jane@x.com")
  = lit "BEGIN:VCARD" ++ newline ++ lit "VERSION:3.0" ++ newline
    ++ lit "FN:Jane" ++ newline ++ lit "TEL:555-1234" ++ newline
    ++ lit "EMAIL:jane@x.com" ++ newline ++ lit "END:VCARD".
Proof. vm_compute. reflexivity. Qed.

(** On every host whose [toUpperCase] leaves [WPA] as it is, the typed text
    [My;Net,pass,WPA] passes the validation of the WiFi template, and the
    generator formats the typed text with its semicolon. *)
Lemma wifi_separator_passes_validation {rt : Runtime} :
  toUpperCase (lit "WPA") = lit "WPA" ->
  let typed := lit "My;Net,pass,WPA" in
  validate_wifi typed = valid (lit "MyNet,pass,WPA")
  /\ validateInput wifi typed = None
  /\ forall st : State,
       input st = typed -> selectedTemplate st = wifiTemplate ->
       validationError st = validateInput wifi typed ->
       generateQR_content st = Formatted (lit "WIFI:T:WPA;S:My;Net;P:pass;;").
Proof.
  intros Hupper typed.
  assert (Hwifi : validate_wifi typed = valid (lit "MyNet,pass,WPA")).
  { unfold validate_wifi.
    change (sanitize_wifi typed) with (lit "MyNet,pass,WPA").
    change (split (chr ",") (lit "MyNet,pass,WPA"))
      with [lit "MyNet"; lit "pass"; lit "WPA"].
    cbv iota zeta beta. change (trim (lit "MyNet")) with (lit "MyNet").
    change (trim (lit "pass")) with (lit "pass").
    change (trim (lit "WPA")) with (lit "WPA").
    rewrite Hupper. reflexivity. }
  assert (Hinput : validateInput wifi typed = None).
  { unfold validateInput, validate_text.
    change (sanitize_text typed) with typed.
    change (trim typed) with typed. cbn [truthy typed lit negb].
    cbn [required maxLength minLength pattern customValidator numberAnd
         templateValidator andb].
    change (negb (2000 =? 0) && (2000 <? len typed)) with false.
    cbv iota. rewrite Hwifi. reflexivity. }
  split; [exact Hwifi|]. split; [exact Hinput|].
  intros st Hin Htemplate Herror. unfold generateQR_content.
  rewrite Herror, Hinput, Hin, Htemplate. reflexivity.
Qed.

(** C10 as stated fails.  The generator validates the typed text but
    formats the trimmed text itself, not the sanitized value: for
    [My;Net,pass,WPA] the validation passes (the sanitized value is
    [MyNet,pass,WPA]), and the ssid field that ends up in the payload is
    [My;Net], with the payload's field separator in it.  (Run with the
    ASCII runtime, which maps these strings as every host does.) *)
Lemma wifi_payload_field_keeps_separator :
  let typed := lit "My;Net,pass,WPA" in
  let st := Examples.wifiTyped typed in
  isValid (validate_wifi (rt := asciiRuntime) typed) = true
  /\ sanitizedValue (validate_wifi (rt := asciiRuntime) typed)
     = Some (lit "MyNet,pass,WPA")
  /\ validationError st = None
  /\ generateQR_content st = Formatted (lit "WIFI:T:WPA;S:My;Net;P:pass;;")
  /\ split (chr ",") (trim (input st)) !! 0%nat = Some (lit "My;Net")
  /\ In (chr ";") (lit "My;Net").
Proof.
  cbv zeta. repeat split; try (vm_compute; reflexivity).
  vm_compute. tauto.
Qed.

End GeneratorFacts.

(** ** Diagnostics *)

Module DiagnosticFacts.
Import JS Diagnostic.

(** [prev.map((r, idx) => idx === i ? x : r)] replaces the entry at index
    [i] and nothing else; outside the list it changes nothing. *)
Lemma replaceAt_insert (i : nat) (x : DiagnosticResult)
    (prev : list DiagnosticResult) :
  replaceAt i x prev = <[i := x]> prev.
Proof.
  unfold replaceAt. apply list_eq. intros j.
  rewrite list_lookup_imap.
  destruct (decide (j = i)) as [->|Hne].
  - destruct (prev !! i) as [y|] eqn:Hi; simpl.
    + rewrite bool_decide_eq_true_2 by reflexivity.
      symmetry. apply list_lookup_insert_eq. eapply lookup_lt_Some; eauto.
    + symmetry. apply lookup_ge_None. rewrite length_insert.
      now apply lookup_ge_None.
  - rewrite list_lookup_insert_ne by congruence.
    destruct (prev !! j); simpl; [|reflexivity].
    now rewrite bool_decide_eq_false_2.
Qed.

(** The results after the loop: those before index [i] are kept, the
    others are the recorded results of the remaining checks. *)
Lemma runChecks_results (env : Env) (remaining : list Check) :
  forall (i : nat) (st : State),
    length (results st) = (i + length remaining)%nat ->
    results (runChecks env i remaining st)
    = take i (results st) ++ List.map (recorded env) remaining.
Proof.
  induction remaining as [|c rest IH]; intros i st Hlen.
  - simpl in *. rewrite app_nil_r. rewrite take_ge by lia. reflexivity.
  - cbn [runChecks List.map].
    match goal with
    | |- results (runChecks env (S i) rest ?st2) = _ =>
        assert (Hres : results st2 = <[i := recorded env c]> (results st))
    end.
    { unfold recorded. destruct (check c env); cbn; apply replaceAt_insert. }
    rewrite IH; rewrite Hres.
    + rewrite (take_S_r _ i (recorded env c)).
      * rewrite take_insert_ge by lia. now rewrite <- app_assoc.
      * apply list_lookup_insert_eq. simpl in Hlen. lia.
    + rewrite length_insert. simpl in Hlen. lia.
Qed.

(** A run only appends to the log. *)
Lemma runChecks_log (env : Env) (remaining : list Check) :
  forall (i : nat) (st : State),
    exists rest, log (runChecks env i remaining st) = log st ++ rest.
Proof.
  induction remaining as [|c rest IH]; intros i st.
  - exists []. simpl. now rewrite app_nil_r.
  - cbn [runChecks].
    match goal with
    | |- exists _, log (runChecks env (S i) rest ?st2) = _ =>
        destruct (IH (S i) st2) as [more Hmore];
        assert (Hst2 : exists evs, log st2 = log st ++ evs)
    end.
    { destruct (check c env); cbn; rewrite <- ?app_assoc; eauto. }
    destruct Hst2 as [evs Hevs]. rewrite Hmore, Hevs, <- app_assoc. eauto.
Qed.

Lemma terminal_not_pending (rs : list DiagnosticResult) :
  Forall terminal rs ->
  List.filter (fun r => bool_decide (status r = pending)) rs = [].
Proof.
  induction 1 as [|r rs Hr _ IH]; [reflexivity|].
  simpl. rewrite IH. rewrite bool_decide_eq_false_2; [reflexivity|].
  destruct Hr as [H|[H|H]]; rewrite H; discriminate.
Qed.

Ltac answer :=
  repeat case_match;
  (split; [reflexivity | unfold terminal; cbn; auto]).

Lemma checkWebRTC_answers (env : Env) :
  answers "WebRTC Support" (checkWebRTC env).
Proof. unfold checkWebRTC. answer. Qed.

Lemma checkWebGL_answers (env : Env) :
  answers "WebGL Support" (checkWebGL env).
Proof. unfold checkWebGL. answer. Qed.

Lemma checkServiceWorkers_answers (env : Env) :
  answers "Service Workers" (checkServiceWorkers env).
Proof. unfold checkServiceWorkers. answer. Qed.

Lemma checkIndexedDB_answers (env : Env) :
  answers "IndexedDB Support" (checkIndexedDB env).
Proof. unfold checkIndexedDB. answer. Qed.

Lemma checkAudioContext_answers (env : Env) :
  answers "Audio Context" (checkAudioContext env).
Proof. unfold checkAudioContext. answer. Qed.

Lemma checkCameraPermissions_answers (env : Env) :
  answers "Camera Permissions" (checkCameraPermissions env).
Proof. unfold checkCameraPermissions. answer. Qed.

Lemma checkMicrophonePermissions_answers (env : Env) :
  answers "Microphone Permissions" (checkMicrophonePermissions env).
Proof. unfold checkMicrophonePermissions. answer. Qed.

Lemma checkNotificationPermissions_answers (env : Env) :
  answers "Notification Permissions" (checkNotificationPermissions env).
Proof. unfold checkNotificationPermissions. answer. Qed.

Lemma classify_answers (score : Q) : answers "Bot Detection" (classify score).
Proof. unfold classify. answer. Qed.

(** A battery stores one recorded result per check, in order. *)
Lemma runBattery_results (cs : list Check) (env : Env) (st : State) :
  results (runBattery cs env st) = List.map (recorded env) cs.
Proof.
  unfold runBattery. cbv zeta.
  change (results (setIsComplete true (setIsRunning false ?s)))
    with (results s).
  rewrite runChecks_results.
  - cbn [results setResults]. now rewrite take_0.
  - cbn [results setResults]. now rewrite length_map.
Qed.

(** A battery starts by setting every result to [pending], and only then
    awaits its first check. *)
Lemma runBattery_log (c : Check) (cs : list Check) (env : Env) (st : State) :
  exists rest,
    log (runBattery (c :: cs) env st)
    = log st ++ [SetIsRunning true;
                 SetResults (List.map pendingResult (c :: cs));
                 Await (check_name c)] ++ rest.
Proof.
  unfold runBattery. cbv zeta. cbn [runChecks].
  match goal with
  | |- context [runChecks env 1 cs ?st2] =>
      destruct (runChecks_log env cs 1 st2) as [more Hmore];
      assert (Hst2 : exists evs,
                 log st2 = log st ++ [SetIsRunning true;
                   SetResults (List.map pendingResult (c :: cs));
                   Await (check_name c)] ++ evs)
  end.
  { destruct (check c env); cbn; repeat rewrite <- app_assoc; cbn [app];
      eauto. }
  destruct Hst2 as [evs Hevs].
  cbn [log setIsComplete setIsRunning]. rewrite Hmore, Hevs.
  repeat rewrite <- app_assoc. cbn [app]. eauto.
Qed.


Lemma runBattery_flags (cs : list Check) (env : Env) (st : State) :
  isRunning (runBattery cs env st) = false
  /\ isComplete (runBattery cs env st) = true.
Proof. split; reflexivity. Qed.

Section Battery.
Context {rt : Runtime}.


(** What the battery records for the nine registered checks. *)
Lemma runDiagnostics_results (env : Env) (st : State) :
  results (runDiagnostics env st)
  = [checkWebRTC env; checkWebGL env; checkServiceWorkers env;
     checkIndexedDB env; checkAudioContext env; checkCameraPermissions env;
     checkMicrophonePermissions env; checkNotificationPermissions env;
     checkBotDetection env].
Proof. unfold runDiagnostics. rewrite runBattery_results. reflexivity. Qed.

Lemma runDiagnostics_terminal (env : Env) (st : State) :
  Forall2 (fun c r => name r = check_name c /\ terminal r)
    checks (results (runDiagnostics env st)).
Proof.
  rewrite runDiagnostics_results. unfold checks.
  repeat (constructor;
          [first [ apply checkWebRTC_answers | apply checkWebGL_answers
                 | apply checkServiceWorkers_answers
                 | apply checkIndexedDB_answers
                 | apply checkAudioContext_answers
                 | apply checkCameraPermissions_answers
                 | apply checkMicrophonePermissions_answers
                 | apply checkNotificationPermissions_answers
                 | apply classify_answers ] |]).
  constructor.
Qed.

(** C6.  A run of the battery first sets all nine results to [pending],
    before the first check is awaited; when it completes there are nine
    results, one per registered check and under its name, each with a
    terminal status, so that none is pending. *)
Theorem runDiagnostics_complete (env : Env) (st : State) :
  let final := runDiagnostics env st in
  let init := List.map pendingResult checks in
  length checks = 9%nat
  /\ length init = 9%nat
  /\ Forall (fun r => status r = pending) init
  /\ (exists rest,
        log final
        = log st ++ [SetIsRunning true; SetResults init;
                     Await (lit "WebRTC Support")] ++ rest)
  /\ length (results final) = 9%nat
  /\ List.map name (results final) = List.map check_name checks
  /\ Forall terminal (results final)
  /\ pendingCount final = 0%nat
  /\ isRunning final = false
  /\ isComplete final = true.
Proof.
  cbv zeta. pose proof (runDiagnostics_terminal env st) as H2.
  assert (Hterm : Forall terminal (results (runDiagnostics env st))).
  { clear -H2. induction H2 as [|c r cs rs [_ Hr] _ IH]; constructor; auto. }
  assert (Hnames : List.map name (results (runDiagnostics env st))
                   = List.map check_name checks).
  { clear -H2. induction H2 as [|c r cs rs [Hn _] _ IH]; [reflexivity|].
    cbn [List.map]. now rewrite Hn, IH. }
  split; [reflexivity|]. split; [reflexivity|].
  split; [unfold checks; repeat constructor|].
  split; [apply (runBattery_log (registered "WebRTC Support" checkWebRTC))|].
  split; [now rewrite runDiagnostics_results|].
  split; [exact Hnames|]. split; [exact Hterm|].
  split; [unfold pendingCount; now rewrite terminal_not_pending|].
  apply runBattery_flags.
Qed.

End Battery.


(** The run on the sample desktop: six checks pass, one fails, two are
    skipped. *)
Lemma runDiagnostics_desktop :
  let final :=
    runDiagnostics (rt := asciiRuntime) (Examples.desktop true) initialState in
  passedCount final = 6%nat /\ failedCount final = 1%nat
  /\ skippedCount final = 2%nat /\ pendingCount final = 0%nat.
Proof. vm_compute. repeat split. Qed.

End DiagnosticFacts.

(** ** The derivative matcher decides the language *)

Module RegexFacts.
Import JS Regex RegexSemantics.

Lemma Matches_Cat_inv (r1 r2 : re) (s : jsstring) :
  Matches (Cat r1 r2) s ->
  exists s1 s2, s = s1 ++ s2 /\ Matches r1 s1 /\ Matches r2 s2.
Proof. intros H. inversion H; subst. eauto. Qed.

Lemma Matches_Class_inv (cls : N -> bool) (s : jsstring) :
  Matches (Class cls) s -> exists c, s = [c] /\ cls c = true.
Proof. intros H. inversion H; subst. eauto. Qed.

Lemma Matches_Alt_inv (r1 r2 : re) (s : jsstring) :
  Matches (Alt r1 r2) s -> Matches r1 s \/ Matches r2 s.
Proof. intros H. inversion H; subst; auto. Qed.

Lemma Matches_Eps_inv (s : jsstring) : Matches Eps s -> s = [].
Proof. intros H. now inversion H. Qed.

Lemma Matches_Empty_inv (s : jsstring) : ~ Matches Empty s.
Proof. intros H. inversion H. Qed.

Lemma nullable_Matches (r : re) : nullable r = true <-> Matches r [].
Proof.
  induction r as [| |cls|r1 IH1 r2 IH2|r1 IH1 r2 IH2|r IH]; simpl.
  - split; [discriminate|]. intros H. now apply Matches_Empty_inv in H.
  - split; [constructor|reflexivity].
  - split; [discriminate|].
    intros H. apply Matches_Class_inv in H as (c & Hc & _). discriminate.
  - rewrite andb_true_iff, IH1, IH2. split.
    + intros [H1 H2]. change (@nil N) with (@nil N ++ @nil N).
      now constructor.
    + intros H. apply Matches_Cat_inv in H as (s1 & s2 & Heq & H1 & H2).
      symmetry in Heq. apply app_eq_nil in Heq as [-> ->]. now split.
  - rewrite orb_true_iff, IH1, IH2. split.
    + intros [H|H]; [now apply MAltL|now apply MAltR].
    + apply Matches_Alt_inv.
  - split; [constructor|reflexivity].
Qed.

(** A match of [Star r] on a non-empty string starts with a non-empty match
    of [r]. *)
Lemma Matches_Star_cons (r : re) (c : N) (s : jsstring) :
  Matches (Star r) (c :: s) ->
  exists s1 s2, s = s1 ++ s2 /\ Matches r (c :: s1) /\ Matches (Star r) s2.
Proof.
  intros H. remember (Star r) as r' eqn:Hr. remember (c :: s) as cs eqn:Hcs.
  revert s Hcs.
  induction H as [| | | | | |r0 s1 s2 H1 _ H2 IH2]; try discriminate.
  injection Hr as ->. intros s Hcs.
  destruct s1 as [|x s1].
  - simpl in Hcs. apply IH2; [reflexivity|exact Hcs].
  - simpl in Hcs. injection Hcs as -> <-. exists s1, s2. auto.
Qed.

Lemma deriv_Matches (r : re) (c : N) (s : jsstring) :
  Matches (deriv c r) s <-> Matches r (c :: s).
Proof.
  revert s.
  induction r as [| |cls|r1 IH1 r2 IH2|r1 IH1 r2 IH2|r IH]; intros s; simpl.
  - split; intros H; now apply Matches_Empty_inv in H.
  - split; intros H; [now apply Matches_Empty_inv in H|].
    apply Matches_Eps_inv in H. discriminate.
  - destruct (cls c) eqn:Hc.
    + split; intros H.
      * apply Matches_Eps_inv in H as ->. now constructor.
      * apply Matches_Class_inv in H as (x & [= -> ->] & _). constructor.
    + split; intros H; [now apply Matches_Empty_inv in H|].
      apply Matches_Class_inv in H as (x & [= -> ->] & Hx). congruence.
  - assert (Hcat : Matches (Cat (deriv c r1) r2) s ->
                   Matches (Cat r1 r2) (c :: s)).
    { intros H. apply Matches_Cat_inv in H as (s1 & s2 & -> & H1 & H2).
      apply IH1 in H1. change (c :: s1 ++ s2) with ((c :: s1) ++ s2).
      now constructor. }
    assert (Hback : Matches (Cat r1 r2) (c :: s) ->
                    Matches (Cat (deriv c r1) r2) s
                    \/ (Matches r1 [] /\ Matches (deriv c r2) s)).
    { intros H. apply Matches_Cat_inv in H as (s1 & s2 & Heq & H1 & H2).
      destruct s1 as [|x s1].
      - simpl in Heq. subst s2. right. split; [exact H1|now apply IH2].
      - simpl in Heq. injection Heq as <- ->. left.
        constructor; [now apply IH1|exact H2]. }
    destruct (nullable r1) eqn:Hn.
    + split.
      * intros H. apply Matches_Alt_inv in H as [H|H]; [now apply Hcat|].
        change (c :: s) with ([] ++ c :: s).
        constructor; [now apply nullable_Matches|now apply IH2].
      * intros H. destruct (Hback H) as [H'|[_ H']];
          [now apply MAltL|now apply MAltR].
    + split; [exact Hcat|].
      intros H. destruct (Hback H) as [H'|[H' _]]; [exact H'|].
      apply nullable_Matches in H'. congruence.
  - split; intros H; apply Matches_Alt_inv in H as [H|H];
      first [apply MAltL; now apply IH1 | apply MAltR; now apply IH2].
  - split.
    + intros H. apply Matches_Cat_inv in H as (s1 & s2 & -> & H1 & H2).
      apply IH in H1. change (c :: s1 ++ s2) with ((c :: s1) ++ s2).
      now constructor.
    + intros H. apply Matches_Star_cons in H as (s1 & s2 & -> & H1 & H2).
      constructor; [now apply IH|exact H2].
Qed.

(** [/^r$/.test(s)] holds exactly when [s] is in the language of [r]. *)
Lemma test_Matches (r : re) (s : jsstring) :
  test r s = true <-> Matches r s.
Proof.
  revert r. induction s as [|c s IH]; intros r; simpl.
  - apply nullable_Matches.
  - rewrite IH. apply deriv_Matches.
Qed.

(** The language of [cls*], [cls+] and [cls{n,}] for a class. *)
Lemma Matches_Star_Class (cls : N -> bool) (s : jsstring) :
  Matches (Star (Class cls)) s <-> allIn cls s.
Proof.
  split.
  - intros H. remember (Star (Class cls)) as r eqn:Hr.
    induction H as [| | | | | |r0 s1 s2 H1 _ H2 IH2]; try discriminate.
    + intros c [].
    + injection Hr as ->. apply Matches_Class_inv in H1 as (c & -> & Hc).
      intros x [<-|Hx]; [assumption|]. now apply IH2.
  - induction s as [|c s IH]; intros H; [constructor|].
    change (c :: s) with ([c] ++ s). constructor.
    + constructor. apply H. now left.
    + apply IH. intros x Hx. apply H. now right.
Qed.

Lemma Matches_AtLeast_Class (n : nat) (cls : N -> bool) (s : jsstring) :
  Matches (AtLeast n (Class cls)) s <-> (n <= length s)%nat /\ allIn cls s.
Proof.
  revert s. induction n as [|n IH]; intros s; simpl.
  - rewrite Matches_Star_Class. split; [intros H; split; [lia|exact H]|tauto].
  - split.
    + intros H. apply Matches_Cat_inv in H as (s1 & s2 & -> & H1 & H2).
      apply Matches_Class_inv in H1 as (c & -> & Hc).
      apply IH in H2 as [Hlen Hall]. split.
      * simpl. lia.
      * intros x [<-|Hx]; [assumption|now apply Hall].
    + intros [Hlen Hall]. destruct s as [|c s]; [simpl in Hlen; lia|].
      change (c :: s) with ([c] ++ s). constructor.
      * constructor. apply Hall. now left.
      * apply IH. split; [simpl in Hlen; lia|].
        intros x Hx. apply Hall. now right.
Qed.

Lemma Matches_Plus_Class (cls : N -> bool) (s : jsstring) :
  Matches (Plus (Class cls)) s <-> s <> [] /\ allIn cls s.
Proof.
  change (Plus (Class cls)) with (AtLeast 1 (Class cls)).
  rewrite Matches_AtLeast_Class. destruct s; simpl; split; intros [H1 H2];
    split; auto; try lia; try congruence.
Qed.

End RegexFacts.

(** ** What the sanitizers guarantee *)

Module SanitizerFacts.
Import JS Regex Validation JSFacts RegexSemantics Shapes.

(** Character literals as numbers. *)
Ltac code_units :=
  unfold isChar, chr in *;
  repeat match goal with
         | |- context [N_of_ascii ?a] =>
             let v := eval vm_compute in (N_of_ascii a) in
             change (N_of_ascii a) with v
         | H : context [N_of_ascii ?a] |- _ =>
             let v := eval vm_compute in (N_of_ascii a) in
             change (N_of_ascii a) with v in H
         end.

(** Membership in the character classes, as arithmetic on code units. *)
Ltac class_arith :=
  unfold emailKept, emailAtom, phoneKept, phoneBody, urlKept, wifiStripped,
    alpha, digit, isWhiteSpace in *;
  code_units;
  rewrite ?negb_true_iff, ?negb_false_iff in *;
  rewrite ?orb_true_iff, ?andb_true_iff, ?orb_false_iff, ?andb_false_iff,
    ?N.leb_le, ?N.leb_gt, ?N.eqb_eq, ?N.eqb_neq in *;
  try lia.

Lemma removeClass_In (cls : N -> bool) (s : jsstring) (c : N) :
  In c (removeClass cls s) -> In c s /\ cls c = false.
Proof.
  unfold removeClass. rewrite filter_In, negb_true_iff. tauto.
Qed.

Lemma sanitize_text_length (input : jsstring) :
  (length (sanitize_text input) <= length input)%nat.
Proof.
  unfold sanitize_text, removeAll_i.
  etransitivity; [apply trim_length|].
  etransitivity; [apply removeAll_i_from_length|].
  etransitivity; [apply removeAll_i_from_length|].
  apply removeClass_length.
Qed.

(** X1.  The result of [sanitize.text] holds no angle bracket, is trimmed
    (trimming it again changes nothing) and is never longer than the
    input. *)
Theorem sanitize_text_shape (input : jsstring) :
  (forall c, In c (sanitize_text input) -> c <> chr "<" /\ c <> chr ">")
  /\ trim (sanitize_text input) = sanitize_text input
  /\ (length (sanitize_text input) <= length input)%nat.
Proof.
  split; [|split].
  - intros c Hc. unfold sanitize_text, removeAll_i in Hc.
    apply trim_In, removeAll_i_from_In, removeAll_i_from_In in Hc.
    apply removeClass_In in Hc as [_ Hc]. class_arith.
  - apply trim_idem.
  - unfold sanitize_text, removeAll_i.
    etransitivity; [apply trim_length|].
    etransitivity; [apply removeAll_i_from_length|].
    etransitivity; [apply removeAll_i_from_length|].
    apply removeClass_length.
Qed.

(** X3.  [sanitize.wifi] and [sanitize.contact] are idempotent, and their
    result holds neither a semicolon nor a double quote. *)
Theorem sanitize_wifi_idempotent (input : jsstring) :
  sanitize_wifi (sanitize_wifi input) = sanitize_wifi input
  /\ sanitize_contact (sanitize_contact input) = sanitize_contact input
  /\ sanitize_contact input = sanitize_wifi input
  /\ (forall c, In c (sanitize_wifi input) -> c <> chr ";" /\ c <> 34%N).
Proof.
  assert (Hclean : forall c, In c (sanitize_wifi input) ->
                             wifiStripped c = false).
  { intros c Hc. apply trim_In, removeClass_In in Hc. tauto. }
  assert (Hidem : sanitize_wifi (sanitize_wifi input) = sanitize_wifi input).
  { unfold sanitize_wifi at 1. rewrite removeClass_id by exact Hclean.
    apply trim_idem. }
  split; [exact Hidem|]. split; [exact Hidem|]. split; [reflexivity|].
  intros c Hc. apply Hclean in Hc. clear Hclean Hidem. class_arith.
Qed.

(** X4.  [sanitize.phone] is idempotent, and every code unit of its result
    is a plus sign, a digit, white space, a hyphen, a parenthesis or a
    full stop. *)
Theorem sanitize_phone_idempotent (input : jsstring) :
  sanitize_phone (sanitize_phone input) = sanitize_phone input
  /\ allIn phoneKept (sanitize_phone input).
Proof.
  assert (Hkept : allIn phoneKept (sanitize_phone input)).
  { intros c Hc. apply trim_In, removeClass_In in Hc as [_ Hc].
    now apply negb_false_iff in Hc. }
  split; [|exact Hkept].
  unfold sanitize_phone at 1. rewrite removeClass_id; [apply trim_idem|].
  intros c Hc. rewrite (Hkept c Hc). reflexivity.
Qed.

Section Email.
Context {rt : Runtime}.

Lemma sanitize_email_kept (input : jsstring) :
  allIn emailKept (sanitize_email input).
Proof.
  intros c Hc. apply removeClass_In in Hc as [_ Hc].
  now apply negb_false_iff in Hc.
Qed.

(** X5.  Whatever the host's case mapping does, the result of
    [sanitize.email] holds only letters, digits and [@ . _ -], so that it
    holds no white space. *)
Theorem sanitize_email_chars (input : jsstring) :
  allIn emailKept (sanitize_email input)
  /\ (forall c, In c (sanitize_email input) -> isWhiteSpace c = false).
Proof.
  assert (Hkept : allIn emailKept (sanitize_email input)).
  { intros c Hc. apply removeClass_In in Hc as [_ Hc].
    now apply negb_false_iff in Hc. }
  split; [exact Hkept|]. intros c Hc. apply Hkept in Hc. clear Hkept.
  class_arith.
Qed.

End Email.

End SanitizerFacts.

(** ** What the validators accept *)

Module ValidatorFacts.
Import JS Regex Validation JSFacts RegexSemantics RegexFacts Shapes.
Import SanitizerFacts.

(** The language of the email pattern. *)
Lemma emailRegex_Matches (s : jsstring) :
  Matches emailRegex s <->
  exists l d t,
    s = l ++ chr "@" :: d ++ chr "." :: t
    /\ (l <> [] /\ allIn notSpaceAt l)
    /\ (d <> [] /\ allIn notSpaceAt d)
    /\ (t <> [] /\ allIn notSpaceAt t).
Proof.
  unfold emailRegex. cbv zeta.
  change (Class (fun c => negb (isWhiteSpace c || isChar "@" c)))
    with (Class notSpaceAt).
  split.
  - intros H.
    apply Matches_Cat_inv in H as (l & s1 & -> & Hl & H).
    apply Matches_Cat_inv in H as (a & s2 & -> & Ha & H).
    apply Matches_Cat_inv in H as (d & s3 & -> & Hd & H).
    apply Matches_Cat_inv in H as (dot & t & -> & Hdot & Ht).
    apply Matches_Class_inv in Ha as (x & -> & Hx).
    apply Matches_Class_inv in Hdot as (y & -> & Hy).
    unfold isChar in Hx, Hy. apply N.eqb_eq in Hx, Hy. subst x y.
    apply Matches_Plus_Class in Hl, Hd, Ht.
    exists l, d, t. repeat split; tauto.
  - intros (l & d & t & -> & Hl & Hd & Ht).
    apply Matches_Plus_Class in Hl, Hd, Ht.
    constructor; [exact Hl|].
    change (chr "@" :: d ++ chr "." :: t)
      with ([chr "@"] ++ d ++ [chr "."] ++ t).
    constructor; [constructor; apply N.eqb_refl|].
    constructor; [exact Hd|].
    constructor; [constructor; apply N.eqb_refl|exact Ht].
Qed.

(** The language of the phone pattern. *)
Lemma phoneRegex_Matches (s : jsstring) :
  Matches phoneRegex s <->
  exists body,
    (s = body \/ s = chr "+" :: body)
    /\ (7 <= length body)%nat /\ allIn phoneBody body.
Proof.
  unfold phoneRegex.
  change (Class (fun c => digit c || isWhiteSpace c || isChar "-" c
                          || isChar "(" c || isChar ")" c || isChar "." c))
    with (Class phoneBody).
  split.
  - intros H. apply Matches_Cat_inv in H as (p & body & -> & Hp & Hbody).
    apply Matches_AtLeast_Class in Hbody. exists body.
    split; [|exact Hbody].
    apply Matches_Alt_inv in Hp as [Hp|Hp].
    + apply Matches_Class_inv in Hp as (x & -> & Hx).
      unfold isChar in Hx. apply N.eqb_eq in Hx. subst x. now right.
    + apply Matches_Eps_inv in Hp as ->. now left.
  - intros (body & Hs & Hbody). apply Matches_AtLeast_Class in Hbody.
    destruct Hs as [->| ->].
    + change body with ([] ++ body). constructor; [|exact Hbody].
      apply MAltR. constructor.
    + change (chr "+" :: body) with ([chr "+"] ++ body).
      constructor; [|exact Hbody]. apply MAltL. constructor.
      apply N.eqb_refl.
Qed.

Lemma occurrences_app (x : N) (s t : jsstring) :
  occurrences x (s ++ t) = (occurrences x s + occurrences x t)%nat.
Proof. unfold occurrences. now rewrite List.filter_app, List.length_app. Qed.

Lemma occurrences_none (x : N) (s : jsstring) :
  ~ In x s -> occurrences x s = 0%nat.
Proof.
  unfold occurrences. induction s as [|c s IH]; intros H; [reflexivity|].
  simpl. destruct (N.eqb_spec c x) as [->|_].
  - exfalso. apply H. now left.
  - apply IH. intros Hx. apply H. now right.
Qed.

Lemma truthy_false_nil (s : jsstring) : truthy s = false -> s = [].
Proof. destruct s; [reflexivity|discriminate]. Qed.

Lemma emailAtom_not_at (s : jsstring) :
  allIn emailAtom s -> ~ In (chr "@") s.
Proof. intros H Hin. apply H in Hin. vm_compute in Hin. discriminate. Qed.

Section Validators.
Context {rt : Runtime}.

(** X6.  [validate.email] accepts exactly when the sanitized input reads
    [local@domain.tld] with three non-empty runs of letters, digits and
    [. _ -].  The result is then the sanitized input, and the fixed message
    otherwise; an accepted value holds exactly one at sign. *)
Theorem validate_email_valid_iff (input : jsstring) :
  (isValid (validate_email input) = true <->
   exists l d t,
     sanitize_email input = l ++ chr "@" :: d ++ chr "." :: t
     /\ (l <> [] /\ allIn emailAtom l)
     /\ (d <> [] /\ allIn emailAtom d)
     /\ (t <> [] /\ allIn emailAtom t))
  /\ validate_email input
     = (if isValid (validate_email input)
        then valid (sanitize_email input)
        else invalid (lit "Invalid email format"))
  /\ (isValid (validate_email input) = true ->
      occurrences (chr "@") (sanitize_email input) = 1%nat).
Proof.
  pose proof (sanitize_email_kept input) as Hkept.
  assert (Hatom : forall c, emailKept c = true -> notSpaceAt c = true ->
                            emailAtom c = true).
  { intros c H1 H2. unfold notSpaceAt in H2. class_arith. }
  assert (Hnsa : forall c, emailAtom c = true -> notSpaceAt c = true).
  { intros c H1. unfold notSpaceAt. class_arith. }
  unfold validate_email.
  destruct (test emailRegex (sanitize_email input)) eqn:Htest; simpl.
  - apply test_Matches, emailRegex_Matches in Htest
      as (l & d & t & Heq & [Hl Hla] & [Hd Hda] & [Ht Hta]).
    assert (Hl' : allIn emailAtom l).
    { intros c Hc. apply Hatom; [|now apply Hla].
      apply Hkept. rewrite Heq. apply in_or_app. now left. }
    assert (Hd' : allIn emailAtom d).
    { intros c Hc. apply Hatom; [|now apply Hda].
      apply Hkept. rewrite Heq. apply in_or_app. right. right.
      apply in_or_app. now left. }
    assert (Ht' : allIn emailAtom t).
    { intros c Hc. apply Hatom; [|now apply Hta].
      apply Hkept. rewrite Heq. apply in_or_app. right. right.
      apply in_or_app. right. now right. }
    split; [split; [intros _|reflexivity]|split; [reflexivity|intros _]].
    + exists l, d, t. tauto.
    + rewrite Heq.
      change (chr "@" :: d ++ chr "." :: t)
        with ([chr "@"] ++ d ++ [chr "."] ++ t).
      rewrite !occurrences_app.
      rewrite (occurrences_none _ l), (occurrences_none _ d),
        (occurrences_none _ t) by now apply emailAtom_not_at.
      reflexivity.
  - split; [split; [discriminate|]|split; [reflexivity|discriminate]].
    intros (l & d & t & Heq & [Hl Hla] & [Hd Hda] & [Ht Hta]).
    exfalso. apply not_true_iff_false in Htest. apply Htest.
    apply test_Matches, emailRegex_Matches. exists l, d, t.
    split; [exact Heq|].
    repeat split; auto; intros c Hc; apply Hnsa; auto.
Qed.

End Validators.

(** The code units of a phone number proper survive the sanitizer. *)
Lemma phoneBody_kept (body : jsstring) :
  allIn phoneBody body -> forall c, In c body -> phoneKept c = true.
Proof. intros H c Hc. apply H in Hc. clear H. class_arith. Qed.

(** X7.  [validate.phone] accepts exactly when the sanitized input is an
    optional plus sign followed by at least seven code units, each a digit,
    white space, a hyphen, a parenthesis or a full stop; a plus sign
    anywhere else rejects the input.  The result is then the sanitized
    input, and the fixed message otherwise.  No digit is required: a trimmed
    input of that form is accepted as it is, with or without the plus
    sign. *)
Theorem validate_phone_valid_iff (input : jsstring) :
  (isValid (validate_phone input) = true <->
   exists body,
     (sanitize_phone input = body \/ sanitize_phone input = chr "+" :: body)
     /\ (7 <= length body)%nat /\ allIn phoneBody body)
  /\ validate_phone input
     = (if isValid (validate_phone input)
        then valid (sanitize_phone input)
        else invalid (lit "Invalid phone number format"))
  /\ (forall body,
        (7 <= length body)%nat -> allIn phoneBody body -> trim body = body ->
        validate_phone body = valid body
        /\ validate_phone (chr "+" :: body) = valid (chr "+" :: body)).
Proof.
  split; [|split].
  - unfold validate_phone.
    destruct (test phoneRegex (sanitize_phone input)) eqn:Htest; simpl.
    + split; [intros _|reflexivity].
      apply test_Matches, phoneRegex_Matches in Htest as (body & Hs & Hbody).
      exists body. tauto.
    + split; [discriminate|]. intros (body & Hs & Hbody).
      exfalso. apply not_true_iff_false in Htest. apply Htest.
      apply test_Matches, phoneRegex_Matches. exists body. tauto.
  - unfold validate_phone.
    destruct (test phoneRegex (sanitize_phone input)); reflexivity.
  - intros body Hlen Hbody Htrim.
    pose proof (phoneBody_kept body Hbody) as Hkept.
    assert (Hs1 : sanitize_phone body = body).
    { unfold sanitize_phone. rewrite removeClass_id; [exact Htrim|].
      intros c Hc. now rewrite (Hkept c Hc). }
    assert (Hs2 : sanitize_phone (chr "+" :: body) = chr "+" :: body).
    { unfold sanitize_phone. rewrite removeClass_id.
      - pose proof (trim_prefixed (chr "+") [] body eq_refl) as Hp.
        rewrite Htrim in Hp. apply Hp.
        intros E. rewrite E in Hlen. cbn in Hlen. lia.
      - intros c [<-|Hc]; [reflexivity|now rewrite (Hkept c Hc)]. }
    assert (Ht1 : test phoneRegex body = true).
    { apply test_Matches, phoneRegex_Matches. exists body. tauto. }
    assert (Ht2 : test phoneRegex (chr "+" :: body) = true).
    { apply test_Matches, phoneRegex_Matches. exists body. tauto. }
    unfold validate_phone. rewrite Hs1, Hs2, Ht1, Ht2. split; reflexivity.
Qed.

(** The guards of [validate.text], read as constraints. *)
Lemma required_guard (req : option bool) (s : jsstring) :
  match req with Some b => b | None => false end && negb (truthy s) = false
  <-> (req = Some true -> s <> []).
Proof.
  destruct req as [[|]|]; cbn [andb]; try (split; [congruence|reflexivity]).
  destruct s; cbn; split; try congruence. intros H. now contradiction H.
Qed.

Lemma minLength_guard (o : option Z) (s : jsstring) :
  numberAnd o (fun n => len s <? n) = false
  <-> (forall n, o = Some n -> n <> 0 -> n <= len s).
Proof.
  unfold numberAnd. destruct o as [n|]; [|split; [congruence|reflexivity]].
  destruct (Z.eqb_spec n 0) as [->|Hn]; cbn [negb andb].
  - split; [intros _ m [= <-] Hm; congruence|reflexivity].
  - rewrite Z.ltb_ge. split; [intros H m [= <-] _; exact H|].
    intros H. now apply H.
Qed.

Lemma maxLength_guard (o : option Z) (s : jsstring) :
  numberAnd o (fun n => n <? len s) = false
  <-> (forall n, o = Some n -> n <> 0 -> len s <= n).
Proof.
  unfold numberAnd. destruct o as [n|]; [|split; [congruence|reflexivity]].
  destruct (Z.eqb_spec n 0) as [->|Hn]; cbn [negb andb].
  - split; [intros _ m [= <-] Hm; congruence|reflexivity].
  - rewrite Z.ltb_ge. split; [intros H m [= <-] _; exact H|].
    intros H. now apply H.
Qed.

Lemma pattern_guard (pat : option (jsstring -> bool)) (s : jsstring) :
  match pat with Some t => negb (t s) | None => false end = false
  <-> (forall t, pat = Some t -> t s = true).
Proof.
  destruct pat as [t|]; [|split; [congruence|reflexivity]].
  rewrite negb_false_iff. split; [intros H t' [= <-]; exact H|].
  intros H. now apply H.
Qed.

(** X8.  [validate.text] accepts exactly when every supplied constraint
    holds of the sanitized input: not empty when required, the length
    within the bounds, the pattern matched, the custom validator satisfied.
    A bound of [0] is not a bound: it is skipped like an absent one. *)
Theorem validate_text_valid_iff (input : jsstring)
    (options : ValidationOptions) :
  let s := sanitize_text input in
  isValid (validate_text input options) = true <->
  (required options = Some true -> s <> [])
  /\ (forall n, minLength options = Some n -> n <> 0 -> n <= len s)
  /\ (forall n, maxLength options = Some n -> n <> 0 -> len s <= n)
  /\ (forall t, pattern options = Some t -> t s = true)
  /\ (forall custom, customValidator options = Some custom ->
                     isValid (custom s) = true).
Proof.
  cbv zeta. unfold validate_text. set (s := sanitize_text input).
  rewrite <- required_guard, <- minLength_guard, <- maxLength_guard,
    <- pattern_guard.
  destruct (_ && negb (truthy s)) eqn:G1;
    [split; [discriminate|intros (H & _); discriminate]|].
  destruct (numberAnd (minLength options) _) eqn:G2;
    [split; [discriminate|intros (_ & H & _); discriminate]|].
  destruct (numberAnd (maxLength options) _) eqn:G3;
    [split; [discriminate|intros (_ & _ & H & _); discriminate]|].
  destruct (match pattern options with
            | Some test => negb (test s)
            | None => false
            end) eqn:G4;
    [split; [discriminate|intros (_ & _ & _ & H & _); discriminate]|].
  destruct (customValidator options) as [custom|].
  - split.
    + intros Hv. repeat split; try reflexivity. intros c [= <-]. exact Hv.
    + intros (_ & _ & _ & _ & H). now apply H.
  - split; [|reflexivity]. intros _. repeat split; try reflexivity.
    intros c [=].
Qed.

Section Contact.
Context {rt : Runtime}.

(** X9.  [validate.contact] accepts exactly when the sanitized input has at
    least three comma parts, the trimmed name is not empty, and the trimmed
    phone and email parts are each empty or accepted by [validate.phone]
    and [validate.email]; phone and email are optional.  An accepted result
    carries the sanitized input, a rejected one no value. *)
Theorem validate_contact_valid_iff (input : jsstring) :
  (isValid (validate_contact input) = true <->
   exists p0 p1 p2 rest,
     split (chr ",") (sanitize_contact input) = p0 :: p1 :: p2 :: rest
     /\ trim p0 <> []
     /\ (trim p1 = [] \/ isValid (validate_phone (trim p1)) = true)
     /\ (trim p2 = [] \/ isValid (validate_email (trim p2)) = true))
  /\ sanitizedValue (validate_contact input)
     = (if isValid (validate_contact input)
        then Some (sanitize_contact input) else None).
Proof.
  split.
  2:{ unfold validate_contact.
      destruct (split (chr ",") (sanitize_contact input))
        as [|p0 [|p1 [|p2 rest]]]; try reflexivity.
      cbv zeta. destruct (negb (truthy (trim p0))); [reflexivity|].
      destruct (truthy (trim p1) && _); [reflexivity|].
      destruct (truthy (trim p2) && _); reflexivity. }
  unfold validate_contact.
  destruct (split (chr ",") (sanitize_contact input))
    as [|p0 [|p1 [|p2 rest]]] eqn:Hsplit;
    try (split; [discriminate|intros (? & ? & ? & ? & [=] & _)]).
  cbv zeta.
  destruct (truthy (trim p0)) eqn:H0; cbn [negb].
  2:{ apply truthy_false_nil in H0. split; [discriminate|].
      intros (? & ? & ? & ? & [= <- <- <- <-] & H & _). contradiction. }
  assert (Hname : trim p0 <> []) by (intros E; rewrite E in H0; discriminate).
  destruct (truthy (trim p1)) eqn:H1; cbn [andb].
  - destruct (isValid (validate_phone (trim p1))) eqn:Hp; cbn [negb].
    + destruct (truthy (trim p2)) eqn:H2; cbn [andb].
      * destruct (isValid (validate_email (trim p2))) eqn:He; cbn [negb].
        -- split; [intros _|reflexivity]. exists p0, p1, p2, rest. auto 10.
        -- split; [discriminate|].
           intros (? & ? & ? & ? & [= <- <- <- <-] & _ & _ & [E|E]);
             [rewrite E in H2; discriminate|congruence].
      * split; [intros _|reflexivity]. exists p0, p1, p2, rest.
        apply truthy_false_nil in H2. auto 10.
    + split; [discriminate|].
      intros (? & ? & ? & ? & [= <- <- <- <-] & _ & [E|E] & _);
        [rewrite E in H1; discriminate|congruence].
  - apply truthy_false_nil in H1.
    destruct (truthy (trim p2)) eqn:H2; cbn [andb].
    + destruct (isValid (validate_email (trim p2))) eqn:He; cbn [negb].
      * split; [intros _|reflexivity]. exists p0, p1, p2, rest. auto 10.
      * split; [discriminate|].
        intros (? & ? & ? & ? & [= <- <- <- <-] & _ & _ & [E|E]);
          [rewrite E in H2; discriminate|congruence].
    + split; [intros _|reflexivity]. exists p0, p1, p2, rest.
      apply truthy_false_nil in H2. auto 10.
Qed.

(** X10.  A rejection by [validate.contact] carries one of four fixed
    messages; the messages of the nested phone and email validators are
    always present, so that no message ever reads [undefined]. *)
Theorem validate_contact_errors (input : jsstring) :
  (isValid (validate_contact input) = true
   /\ error (validate_contact input) = None)
  \/ (isValid (validate_contact input) = false
      /\ exists m,
           error (validate_contact input) = Some m
           /\ In m [lit "Please provide: Name,Phone,Email";
                    lit "Name is required";
                    lit "Invalid phone: Invalid phone number format";
                    lit "Invalid email: Invalid email format"]).
Proof.
  unfold validate_contact.
  destruct (split (chr ",") (sanitize_contact input))
    as [|p0 [|p1 [|p2 rest]]];
    try (right; split; [reflexivity|]; eexists; split;
         [reflexivity|now left]).
  cbv zeta.
  destruct (truthy (trim p0)); cbn [negb];
    [|right; split; [reflexivity|]; eexists; split;
      [reflexivity|right; now left]].
  assert (Hphone : forall x, isValid (validate_phone x) = false ->
            errorText (validate_phone x) = lit "Invalid phone number format").
  { intros x. unfold validate_phone.
    destruct (test phoneRegex (sanitize_phone x)); [discriminate|reflexivity]. }
  assert (Hemail : forall x, isValid (validate_email x) = false ->
            errorText (validate_email x) = lit "Invalid email format").
  { intros x. unfold validate_email.
    destruct (test emailRegex (sanitize_email x)); [discriminate|reflexivity]. }
  destruct (truthy (trim p1) && negb (isValid (validate_phone (trim p1))))
    eqn:H1.
  { right. split; [reflexivity|]. eexists. split; [reflexivity|].
    apply andb_true_iff in H1 as [_ H1]. apply negb_true_iff in H1.
    rewrite (Hphone _ H1). right. right. now left. }
  destruct (truthy (trim p2) && negb (isValid (validate_email (trim p2))))
    eqn:H2.
  { right. split; [reflexivity|]. eexists. split; [reflexivity|].
    apply andb_true_iff in H2 as [_ H2]. apply negb_true_iff in H2.
    rewrite (Hemail _ H2). right. right. right. now left. }
  left. split; reflexivity.
Qed.

(** X11.  On a host whose URL constructor accepts every URL that it has
    printed and prints it unchanged, [validate.url] accepts every input that
    the constructor accepts, as it is when it starts with [http] and behind
    [https://] otherwise; the sanitized value is the URL as the constructor
    prints it. *)
Theorem validate_url_accepts (input href : jsstring) :
  (forall s h, URL_href s = Some h -> URL_href h = Some h) ->
  URL_href (if startsWith (lit "http") input then input
            else lit "https://" ++ input) = Some href ->
  validate_url input = valid href.
Proof.
  intros Hprint Hparse. unfold validate_url, sanitize_url.
  rewrite Hparse. now rewrite (Hprint _ _ Hparse).
Qed.

(** Otherwise, when the constructor rejects the input, [sanitize.url]
    keeps only letters, digits and [: / ? . _ -], and [validate.url]
    accepts only if the constructor accepts what is left. *)
Theorem validate_url_fallback (input : jsstring) :
  URL_href (if startsWith (lit "http") input then input
            else lit "https://" ++ input) = None ->
  allIn urlKept (sanitize_url input)
  /\ (isValid (validate_url input) = true <->
      exists h, URL_href (sanitize_url input) = Some h).
Proof.
  intros Hparse. unfold validate_url, sanitize_url. rewrite Hparse.
  split.
  - intros c Hc. apply removeClass_In in Hc as [_ Hc].
    now apply negb_false_iff in Hc.
  - destruct (URL_href (removeClass _ input)) as [h|];
      cbn [isValid valid invalid].
    + split; [eauto|reflexivity].
    + split; [discriminate|intros [h [=]]].
Qed.

End Contact.

(** A hand-checkable way to show that all code units of a literal are in a
    class. *)
Lemma allIn_forallb (cls : N -> bool) (s : jsstring) :
  forallb cls s = true -> allIn cls s.
Proof. intros H c Hc. rewrite forallb_forall in H. now apply H. Qed.

Lemma validate_email_valid_iff_witness :
  validate_email (rt := asciiRuntime) (lit " Ann@Example.org")
  = valid (lit "ann@example.org")
  /\ occurrences (chr "@")
       (sanitize_email (rt := asciiRuntime) (lit " Ann@Example.org")) = 1%nat.
Proof.
  destruct (validate_email_valid_iff (rt := asciiRuntime)
              (lit " Ann@Example.org")) as (Hiff & Hres & Hocc).
  assert (Hv : isValid (validate_email (rt := asciiRuntime)
                          (lit " Ann@Example.org")) = true).
  { apply Hiff. exists (lit "ann"), (lit "example"), (lit "org").
    split; [reflexivity|].
    repeat split; try discriminate; apply allIn_forallb; reflexivity. }
  split; [|exact (Hocc Hv)].
  rewrite Hres, Hv. reflexivity.
Defined.

Lemma validate_phone_valid_iff_witness :
  validate_phone (lit "(---) ---") = valid (lit "(---) ---")
  /\ validate_phone (lit "+(---) ---") = valid (lit "+(---) ---")
  /\ isValid (validate_phone (lit "  555-01 23 ")) = true.
Proof.
  destruct (validate_phone_valid_iff (lit "  555-01 23 "))
    as (Hiff & _ & Hform).
  destruct (Hform (lit "(---) ---")) as [H1 H2];
    [cbn; lia|apply allIn_forallb; reflexivity|reflexivity|].
  split; [exact H1|]. split; [exact H2|].
  apply Hiff. exists (lit "555-01 23"). split; [now left|].
  split; [cbn; lia|apply allIn_forallb; reflexivity].
Defined.

Lemma validate_contact_valid_iff_witness :
  isValid (validate_contact (rt := asciiRuntime) (lit "Ann, ,ann@example.org"))
  = true
  /\ sanitizedValue
       (validate_contact (rt := asciiRuntime) (lit "Ann, ,ann@example.org"))
     = Some (lit "Ann, ,ann@example.org").
Proof.
  destruct (validate_contact_valid_iff (rt := asciiRuntime)
              (lit "Ann, ,ann@example.org")) as (Hiff & Hval).
  assert (Hv : isValid (validate_contact (rt := asciiRuntime)
                          (lit "Ann, ,ann@example.org")) = true).
  { apply Hiff. exists (lit "Ann"), (lit " "), (lit "ann@example.org"), [].
    split; [reflexivity|]. split; [discriminate|].
    split; [now left|right; reflexivity]. }
  split; [exact Hv|]. rewrite Hval, Hv. reflexivity.
Defined.

Lemma validate_url_accepts_witness :
  validate_url (rt := asciiRuntime) (lit "example.com")
  = valid (lit "https://example.com").
Proof.
  apply (validate_url_accepts (rt := asciiRuntime)).
  - intros s h. cbn [URL_href asciiRuntime].
    destruct (_ && _) eqn:Hs; [|discriminate]. intros [= <-]. now rewrite Hs.
  - reflexivity.
Defined.

Lemma validate_url_fallback_witness :
  allIn urlKept (sanitize_url (rt := asciiRuntime) (lit "my site.com")).
Proof.
  apply (validate_url_fallback (rt := asciiRuntime) (lit "my site.com")).
  reflexivity.
Defined.

End ValidatorFacts.

(** ** Runs of the retry executor in general *)

Module RetryRuns.
Import Validation RetryModel.

Lemma total_app (l k : list Z) : total (l ++ k) = total l + total k.
Proof. unfold total. induction l as [|x l IH]; simpl; lia. Qed.

Lemma backoff_S (delay : Z) (n : nat) :
  backoff delay (S n) = backoff delay n ++ [delay * 2 ^ Z.of_nat n].
Proof. unfold backoff. now rewrite seq_S, List.map_app. Qed.

(** The waits add up to [delay * (2^n - 1)]. *)
Lemma total_backoff (delay : Z) (n : nat) :
  total (backoff delay n) = delay * (2 ^ Z.of_nat n - 1).
Proof.
  induction n as [|n IH]; [unfold backoff, total; simpl; lia|].
  rewrite backoff_S, total_app, IH. unfold total; simpl fold_right.
  rewrite Nat2Z.inj_succ, Z.pow_succ_r by lia. lia.
Qed.

Section Retry.
Context {W T E : Type}.
Implicit Types (operation : Operation (W := W) (T := T) (E := E)).

Lemma retryLoop_run operation (maxRetries delay : Z) :
  forall (fuel : nat) (attempt : Z) (lastError : option E)
         (waited : list Z) (w : W),
    Z.of_nat fuel = maxRetries - attempt + 1 -> (1 <= fuel)%nat ->
    exists (k : nat) (run : RetryRun),
      (1 <= k <= fuel)%nat
      /\ retryLoop operation maxRetries delay fuel attempt lastError waited w
         = Some run
      /\ (forall j, (j < k - 1)%nat -> failed (resultAt operation j w))
      /\ outcome run = settle (resultAt operation (k - 1) w)
      /\ ((k < fuel)%nat -> ~ failed (resultAt operation (k - 1) w))
      /\ waits run
         = waited
           ++ List.map (fun j => delay * 2 ^ (attempt - 1 + Z.of_nat j))
                (seq 0 (k - 1))
      /\ world run = worldAfter operation k w.
Proof.
  induction fuel as [|fuel IH]; intros attempt lastError waited w Hf Hpos;
    [lia|].
  cbn [retryLoop].
  destruct (Z.leb_spec attempt maxRetries) as [Hle|Hgt]; [|lia].
  unfold resultAt.
  destruct (operation w) as [[value|err] w'] eqn:Hop.
  - exists 1%nat. eexists. split; [lia|]. split; [reflexivity|].
    cbn [outcome waits world worldAfter Nat.sub seq List.map].
    rewrite Hop. cbn. rewrite app_nil_r.
    repeat split; auto. intros j Hj. lia.
  - destruct (Z.eqb_spec attempt maxRetries) as [Heq|Hne].
    + exists 1%nat. eexists. split; [lia|]. split; [reflexivity|].
      cbn [outcome waits world worldAfter Nat.sub seq List.map].
      rewrite Hop. cbn. rewrite app_nil_r.
      repeat split; auto; intros; lia.
    + destruct (IH (attempt + 1) (Some err)
                  (waited ++ [delay * 2 ^ (attempt - 1)]) w')
        as (k & run & Hk & Hrun & Hfail & Hout & Hearly & Hwaits & Hworld);
        [lia|lia|].
      exists (S k), run. split; [lia|]. split; [exact Hrun|].
      replace (S k - 1)%nat with (S (k - 1)) by lia.
      split; [|split; [|split; [|split]]].
      * intros [|j] Hj; cbn [worldAfter]; rewrite Hop; cbn [fst snd];
          [exact I|]. apply Hfail. lia.
      * cbn [worldAfter]. rewrite Hop. exact Hout.
      * intros Hlt. cbn [worldAfter]. rewrite Hop. apply Hearly. lia.
      * rewrite Hwaits, <- app_assoc. f_equal. cbn [seq List.map app].
        f_equal; [f_equal; f_equal; lia|].
        rewrite <- seq_shift, List.map_map. apply List.map_ext.
        intros j. f_equal. f_equal. lia.
      * cbn [worldAfter]. rewrite Hop. exact Hworld.
Qed.

(** The number of waits of a run. *)
Lemma withRetry_run_aux operation (maxRetries delay : Z) (w : W) :
  1 <= maxRetries ->
  exists k : nat,
    (1 <= k <= Z.to_nat maxRetries)%nat
    /\ forall run, withRetry operation maxRetries delay w = Some run ->
                   waits run = backoff delay (k - 1).
Proof.
  intros Hm. unfold withRetry.
  destruct (retryLoop_run operation maxRetries delay (Z.to_nat maxRetries)
              1 None [] w)
    as (k & run & Hk & Hrun & _ & _ & _ & Hwaits & _); [lia|lia|].
  exists k. split; [lia|]. intros run' Hrun'. rewrite Hrun in Hrun'.
  injection Hrun' as <-. rewrite Hwaits. cbn [app]. unfold backoff.
  apply List.map_ext. intros j. do 2 f_equal; lia.
Qed.

(** X12.  With at least one attempt allowed, [withRetry] invokes the
    operation some [k] times, [1 <= k <= maxRetries], one after the other:
    the first [k - 1] invocations fail, the run settles on the result of
    the [k]-th, and an invocation before the last allowed one ends the run
    only by succeeding.  Between the invocations it waits [delay],
    [2 * delay], ... ([k - 1] waits), and never after the last one. *)
Theorem withRetry_run operation (maxRetries delay : Z) (w : W) :
  1 <= maxRetries ->
  exists (k : nat) (run : RetryRun),
    (1 <= k <= Z.to_nat maxRetries)%nat
    /\ withRetry operation maxRetries delay w = Some run
    /\ (forall j, (j < k - 1)%nat -> failed (resultAt operation j w))
    /\ outcome run = settle (resultAt operation (k - 1) w)
    /\ ((k < Z.to_nat maxRetries)%nat ->
        ~ failed (resultAt operation (k - 1) w))
    /\ waits run = backoff delay (k - 1)
    /\ world run = worldAfter operation k w.
Proof.
  intros Hm. unfold withRetry.
  destruct (retryLoop_run operation maxRetries delay (Z.to_nat maxRetries)
              1 None [] w)
    as (k & run & Hk & Hrun & Hfail & Hout & Hearly & Hwaits & Hworld);
    [lia|lia|].
  exists k, run.
  split; [lia|]. split; [exact Hrun|]. split; [exact Hfail|].
  split; [exact Hout|]. split; [exact Hearly|]. split; [|exact Hworld].
  rewrite Hwaits. cbn [app]. unfold backoff. apply List.map_ext.
  intros j. do 2 f_equal; lia.
Qed.

(** X13.  With no attempt allowed ([maxRetries <= 0]) [withRetry] never
    invokes the operation and throws [undefined], the initial value of
    [lastError]. *)
Theorem withRetry_no_attempt operation (maxRetries delay : Z) (w : W) :
  maxRetries <= 0 ->
  withRetry operation maxRetries delay w
  = Some {| outcome := inr None; waits := []; world := w |}.
Proof.
  intros Hm. unfold withRetry.
  replace (Z.to_nat maxRetries) with 0%nat by lia. cbn [retryLoop].
  destruct (Z.leb_spec 1 maxRetries); [lia|reflexivity].
Qed.

(** X14.  The time a run spends waiting is [delay * (2^(k-1) - 1)] for its
    [k] invocations, hence at most [delay * (2^(maxRetries-1) - 1)]: 1500 ms
    for the three attempts with base delay 500 of the generator. *)
Theorem withRetry_total_wait operation (maxRetries delay : Z) (w : W)
    (run : RetryRun) :
  1 <= maxRetries -> 0 <= delay ->
  withRetry operation maxRetries delay w = Some run ->
  (length (waits run) < Z.to_nat maxRetries)%nat
  /\ total (waits run) = delay * (2 ^ Z.of_nat (length (waits run)) - 1)
  /\ total (waits run) <= delay * (2 ^ (maxRetries - 1) - 1).
Proof.
  intros Hm Hd Hrun.
  destruct (withRetry_run_aux operation maxRetries delay w Hm)
    as (k & Hk & Hwaits).
  rewrite Hrun in Hwaits. specialize (Hwaits run eq_refl).
  assert (Hlen : length (waits run) = (k - 1)%nat).
  { rewrite Hwaits. unfold backoff. now rewrite List.length_map, length_seq. }
  split; [lia|]. rewrite Hlen.
  split; [rewrite Hwaits; apply total_backoff|].
  rewrite Hwaits, total_backoff.
  apply Z.mul_le_mono_nonneg_l; [exact Hd|].
  apply Z.sub_le_mono_r. apply Z.pow_le_mono_r; lia.
Qed.

End Retry.

Lemma withRetry_run_witness :
  exists (k : nat) (run : RetryRun),
    (1 <= k <= 3)%nat
    /\ withRetry (Examples.flaky 1) 3 500 0%nat = Some run
    /\ outcome run = settle (resultAt (Examples.flaky 1) (k - 1) 0%nat)
    /\ waits run = backoff 500 (k - 1).
Proof.
  destruct (withRetry_run (Examples.flaky 1) 3 500 0%nat)
    as (k & run & Hk & Hrun & _ & Hout & _ & Hwaits & _); [lia|].
  exists k, run. split; [exact Hk|]. split; [exact Hrun|].
  split; [exact Hout|exact Hwaits].
Defined.

Lemma withRetry_no_attempt_witness :
  withRetry (Examples.flaky 0) 0 500 0%nat
  = Some {| outcome := inr None; waits := []; world := 0%nat |}.
Proof. apply (withRetry_no_attempt (Examples.flaky 0) 0 500 0%nat). lia. Defined.

Lemma withRetry_total_wait_witness :
  total [500; 1000] <= 500 * (2 ^ (3 - 1) - 1).
Proof.
  apply (withRetry_total_wait (Examples.flaky 5) 3 500 0%nat
           {| outcome := inr (Some 2%nat); waits := [500; 1000];
              world := 3%nat |}); [lia|lia|reflexivity].
Defined.

End RetryRuns.

(** ** The history over several generations *)

Module HistoryFacts.
Import JS QRGenerator History.

Lemma saveToHistory_template (w : Completion) (now_id now_ts : Z)
    (c u : jsstring) (st : State) :
  selectedTemplate (fst (saveToHistory w now_id now_ts c u st))
  = selectedTemplate st.
Proof. reflexivity. Qed.

Lemma take_app_take {A : Type} (n : nat) (l k : list A) :
  take n (l ++ take n k) = take n (l ++ k).
Proof.
  rewrite !take_app. f_equal. rewrite take_take. f_equal. lia.
Qed.

Lemma saveAll_app (l1 l2 : list Save) (st : State) :
  saveAll (l1 ++ l2) st = saveAll l2 (saveAll l1 st).
Proof. unfold saveAll. apply fold_left_app. Qed.

Lemma saveAll_history (saves : list Save) :
  forall st : State,
    saves <> [] ->
    qrHistory (saveAll saves st)
    = take 10 (rev (List.map (entryOf st) saves) ++ qrHistory st).
Proof.
  induction saves as [|sv rest IH]; intros st Hne; [congruence|].
  unfold saveAll. cbn [fold_left].
  set (st' := fst (saveToHistory (save_setItem sv) (save_now_id sv)
                     (save_now_ts sv) (save_content sv) (save_qrDataUrl sv)
                     st)).
  fold (saveAll rest st').
  destruct rest as [|sv' rest'].
  - reflexivity.
  - rewrite (IH st') by discriminate.
    assert (Hentry : List.map (entryOf st') (sv' :: rest')
                     = List.map (entryOf st) (sv' :: rest')).
    { apply List.map_ext. intros x. reflexivity. }
    rewrite Hentry.
    change (qrHistory st') with (take 10 (entryOf st sv :: qrHistory st)).
    rewrite take_app_take.
    cbn [List.map rev]. now rewrite <- !app_assoc.
Qed.

(** Writes that throw leave the stored snapshot as it was. *)
Lemma saveAll_thrown (saves : list Save) :
  forall st : State,
    Forall (fun sv => save_setItem sv = Thrown) saves ->
    stored (saveAll saves st) = stored st.
Proof.
  induction saves as [|sv rest IH]; intros st Hall; [reflexivity|].
  apply Forall_cons in Hall as [Hsv Hrest].
  unfold saveAll. cbn [fold_left].
  match goal with
  | |- stored (fold_left ?f rest ?s) = _ =>
      change (fold_left f rest s) with (saveAll rest s);
      rewrite (IH s Hrest)
  end.
  cbn [saveToHistory fst stored]. now rewrite Hsv.
Qed.

(** X15.  After one or more calls of [saveToHistory] the history is the
    first ten of: the added entries, newest first, followed by the history
    from before; it never exceeds ten entries, whichever writes the host
    refused.  The stored snapshot is the history as it was after the last
    call whose write returned, and what it was before when every write
    threw. *)
Theorem saveAll_newest_ten (saves : list Save) (st : State) :
  saves <> [] ->
  qrHistory (saveAll saves st)
  = take 10 (rev (List.map (entryOf st) saves) ++ qrHistory st)
  /\ (length (qrHistory (saveAll saves st)) <= 10)%nat
  /\ (Forall (fun sv => save_setItem sv = Thrown) saves ->
      stored (saveAll saves st) = stored st)
  /\ (forall pre sv post,
        saves = pre ++ sv :: post ->
        save_setItem sv = Returned ->
        Forall (fun sv' => save_setItem sv' = Thrown) post ->
        stored (saveAll saves st)
        = Some (qrHistory (saveAll (pre ++ [sv]) st))).
Proof.
  intros Hne. pose proof (saveAll_history saves st Hne) as Hh.
  split; [exact Hh|]. split; [rewrite Hh, length_take; lia|].
  split; [apply saveAll_thrown|].
  intros pre sv post -> Hsv Hpost.
  change (pre ++ sv :: post) with (pre ++ [sv] ++ post).
  rewrite app_assoc, saveAll_app, (saveAll_thrown post _ Hpost).
  rewrite saveAll_app. unfold saveAll at 1 3. cbn [fold_left].
  cbn [saveToHistory fst stored qrHistory]. now rewrite Hsv.
Qed.

Lemma saveAll_newest_ten_witness :
  List.map timestamp
    (qrHistory (saveAll Examples.twoSaves Examples.fullHistory))
  = [12; 11; 10; 9; 8; 7; 6; 5; 4; 3]
  /\ stored (saveAll Examples.twoSaves Examples.fullHistory)
     = Some (qrHistory (saveAll Examples.twoSaves Examples.fullHistory)).
Proof.
  destruct (saveAll_newest_ten Examples.twoSaves Examples.fullHistory)
    as (Hh & _ & _ & Hs); [discriminate|].
  split; [rewrite Hh; reflexivity|].
  destruct Examples.twoSaves as [|s1 [|s2 rest]] eqn:E;
    try discriminate E.
  injection E as E1 E2 E3. subst rest.
  rewrite (Hs [s1] s2 []);
    [reflexivity|reflexivity|now rewrite <- E2|constructor].
Defined.

End HistoryFacts.

(** ** From validation to the generated content *)

Module PipelineFacts.
Import JS Regex Validation QRGenerator JSFacts Shapes.
Import SanitizerFacts ValidatorFacts.

(** X16.  The website template is idempotent: formatting a formatted value
    changes nothing, so a value that already starts with [http] is never
    prefixed again. *)
Theorem format_url_idempotent (value : jsstring) :
  format urlTemplate (format urlTemplate value) = format urlTemplate value.
Proof.
  cbn [format urlTemplate]. unfold format_url.
  destruct (startsWith (lit "http") value) eqn:H; [now rewrite H|].
  reflexivity.
Qed.

(** Splitting yields one part more than there are separators. *)
Lemma split_length (sep : N) (s : jsstring) :
  length (split sep s) = S (occurrences sep s).
Proof.
  unfold occurrences. induction s as [|c s IH]; [reflexivity|].
  cbn [split List.filter]. destruct (c =? sep)%N; cbn [length].
  - now rewrite IH.
  - destruct (split sep s); cbn [length] in *; lia.
Qed.

(** The sanitizers only delete code units. *)
Lemma occurrences_removeClass (cls : N -> bool) (x : N) (s : jsstring) :
  (occurrences x (removeClass cls s) <= occurrences x s)%nat.
Proof.
  unfold occurrences, removeClass. induction s as [|c s IH]; [reflexivity|].
  cbn [List.filter]. destruct (cls c), (c =? x)%N eqn:E; cbn [negb List.filter];
    rewrite ?E; cbn [length]; lia.
Qed.

Lemma occurrences_removeAll_i_from (p : jsstring) (x : N) (s : jsstring) :
  forall k, (occurrences x (removeAll_i_from p k s) <= occurrences x s)%nat.
Proof.
  unfold occurrences. induction s as [|c s IH]; intros k; [reflexivity|].
  cbn [removeAll_i_from List.filter].
  assert (Hdrop : forall j,
             (length (List.filter (fun c0 => (c0 =? x)%N)
                        (removeAll_i_from p j s))
              <= length (if (c =? x)%N
                         then c :: List.filter (fun c0 => (c0 =? x)%N) s
                         else List.filter (fun c0 => (c0 =? x)%N) s))%nat).
  { intros j. specialize (IH j). destruct (c =? x)%N; cbn [length]; lia. }
  destruct k as [|k]; [|apply Hdrop].
  destruct p as [|a p']; [|destruct (matchesAt_i (a :: p') (c :: s));
                           [apply Hdrop|]];
    cbn [List.filter]; specialize (IH 0%nat);
    destruct (c =? x)%N; cbn [length]; lia.
Qed.

Lemma occurrences_rev (x : N) (s : jsstring) :
  occurrences x (rev s) = occurrences x s.
Proof.
  induction s as [|c s IH]; [reflexivity|].
  cbn [rev]. rewrite occurrences_app, IH.
  change (c :: s) with ([c] ++ s). rewrite occurrences_app. lia.
Qed.

Lemma occurrences_trimStart (x : N) (s : jsstring) :
  (occurrences x (trimStart s) <= occurrences x s)%nat
  /\ (isWhiteSpace x = false ->
      occurrences x (trimStart s) = occurrences x s).
Proof.
  induction s as [|c s [IH1 IH2]]; [split; reflexivity|].
  cbn [trimStart]. destruct (isWhiteSpace c) eqn:Hc; [|split; reflexivity].
  unfold occurrences in *. cbn [List.filter].
  destruct (N.eqb_spec c x) as [->|Hne]; cbn [length].
  - split; [lia|]. intros Hx. congruence.
  - split; [exact IH1|exact IH2].
Qed.

Lemma occurrences_trim (x : N) (s : jsstring) :
  (occurrences x (trim s) <= occurrences x s)%nat
  /\ (isWhiteSpace x = false -> occurrences x (trim s) = occurrences x s).
Proof.
  unfold trim, trimEnd. rewrite occurrences_rev.
  destruct (occurrences_trimStart x (rev (trimStart s))) as [H1 H2].
  destruct (occurrences_trimStart x s) as [H3 H4].
  rewrite occurrences_rev in H1, H2. split; [lia|].
  intros Hx. rewrite H2, H4; auto.
Qed.

Lemma occurrences_sanitize_text (x : N) (s : jsstring) :
  (occurrences x (sanitize_text s) <= occurrences x s)%nat.
Proof.
  unfold sanitize_text, removeAll_i.
  etransitivity; [apply occurrences_trim|].
  etransitivity; [apply occurrences_removeAll_i_from|].
  etransitivity; [apply occurrences_removeAll_i_from|].
  apply occurrences_removeClass.
Qed.

Lemma occurrences_sanitize_wifi (x : N) (s : jsstring) :
  (occurrences x (sanitize_wifi s) <= occurrences x s)%nat.
Proof.
  unfold sanitize_wifi.
  etransitivity; [apply occurrences_trim|]. apply occurrences_removeClass.
Qed.

Section Validated.
Context {rt : Runtime}.

(** A validation error is never the empty string. *)
Lemma validateInput_truthy (i : TemplateId) (value e : jsstring) :
  validateInput i value = Some e -> truthy e = true.
Proof.
  unfold validateInput. destruct (negb (truthy (trim value))); [discriminate|].
  destruct (isValid _); [discriminate|].
  destruct (error _) as [m|]; [|intros [= <-]; reflexivity].
  destruct (truthy m) eqn:Hm; intros [= <-]; [exact Hm|reflexivity].
Qed.

(** What a settled validation without error means. *)
Lemma validateInput_None (i : TemplateId) (value : jsstring) :
  validateInput i value = None -> trim value <> [] ->
  isValid (templateValidator i (sanitize_text value)) = true.
Proof.
  unfold validateInput. intros H Hne.
  destruct (truthy (trim value)) eqn:Ht;
    [|apply truthy_false_nil in Ht; contradiction].
  cbn [negb] in H.
  destruct (isValid (validate_text value _)) eqn:Hv.
  - revert Hv. unfold validate_text.
    cbn [required minLength maxLength pattern customValidator andb].
    destruct (numberAnd None _); [discriminate|].
    destruct (numberAnd (Some 2000) _); [discriminate|]. tauto.
  - destruct (error _) as [m|]; [destruct (truthy m)|]; discriminate.
Qed.

(** When the validation of the WiFi or contact template passed, the typed
    text has at least three comma parts. *)
Lemma validated_three_parts (i : TemplateId) (value : jsstring) :
  i = wifi \/ i = contact ->
  validateInput i value = None -> trim value <> [] ->
  exists p0 p1 p2 rest, split (chr ",") (trim value) = p0 :: p1 :: p2 :: rest.
Proof.
  intros Hi Hnone Hne.
  pose proof (validateInput_None i value Hnone Hne) as Hv.
  assert (Hparts : (3 <= length (split (chr ",")
                                   (sanitize_wifi (sanitize_text value))))%nat).
  { destruct Hi as [-> | ->]; cbn [templateValidator] in Hv.
    - unfold validate_wifi in Hv.
      destruct (split _ _) as [|? [|? [|? ?]]]; try discriminate.
      cbn [length]. lia.
    - unfold validate_contact in Hv.
      change (sanitize_contact (sanitize_text value))
        with (sanitize_wifi (sanitize_text value)) in Hv.
      destruct (split _ _) as [|? [|? [|? ?]]]; try discriminate.
      cbn [length]. lia. }
  rewrite split_length in Hparts.
  pose proof (occurrences_sanitize_wifi (chr ",") (sanitize_text value)).
  pose proof (occurrences_sanitize_text (chr ",") value).
  destruct (occurrences_trim (chr ",") value) as [_ Htrim].
  specialize (Htrim eq_refl).
  assert (Hlen : (3 <= length (split (chr ",") (trim value)))%nat).
  { rewrite split_length. lia. }
  destruct (split (chr ",") (trim value)) as [|p0 [|p1 [|p2 rest]]];
    cbn [length] in Hlen; try lia.
  eauto.
Qed.

(** X17.  With the WiFi template selected and the validation of the typed
    text settled, [generateQR] either shows a toast or hands the QR engine a
    [WIFI:] payload built from the first three comma parts of the trimmed
    text: the text is never passed on unformatted. *)
Theorem generateQR_wifi_payload (st : State) (c : jsstring) :
  selectedTemplate st = wifiTemplate ->
  validationError st = validateInput wifi (input st) ->
  generateQR_content st = Formatted c ->
  exists p0 p1 p2 rest,
    split (chr ",") (trim (input st)) = p0 :: p1 :: p2 :: rest
    /\ c = lit "WIFI:T:" ++ p2 ++ lit ";S:" ++ p0 ++ lit ";P:" ++ p1
           ++ lit ";;".
Proof.
  intros Ht Hv. unfold generateQR_content. rewrite Ht, Hv.
  destruct (truthy (trim (input st))) eqn:Hne; [|discriminate].
  cbn [negb].
  destruct (validateInput wifi (input st)) as [e|] eqn:He.
  { rewrite (validateInput_truthy _ _ _ He). discriminate. }
  cbv iota. intros Hc. injection Hc as Hc. subst c.
  destruct (validated_three_parts wifi (input st)) as (p0 & p1 & p2 & rest & Hs);
    [now left|exact He|intros E; rewrite E in Hne; discriminate|].
  exists p0, p1, p2, rest. split; [exact Hs|].
  cbn [format wifiTemplate]. unfold format_wifi. now rewrite Hs.
Qed.

(** X18.  Likewise for the contact template: what reaches the QR engine is
    a vCard built from the first three comma parts of the trimmed text. *)
Theorem generateQR_contact_payload (st : State) (c : jsstring) :
  selectedTemplate st = contactTemplate ->
  validationError st = validateInput contact (input st) ->
  generateQR_content st = Formatted c ->
  exists p0 p1 p2 rest,
    split (chr ",") (trim (input st)) = p0 :: p1 :: p2 :: rest
    /\ c = lit "BEGIN:VCARD" ++ newline ++ lit "VERSION:3.0" ++ newline
           ++ lit "FN:" ++ p0 ++ newline ++ lit "TEL:" ++ p1 ++ newline
           ++ lit "EMAIL:" ++ p2 ++ newline ++ lit "END:VCARD".
Proof.
  intros Ht Hv. unfold generateQR_content. rewrite Ht, Hv.
  destruct (truthy (trim (input st))) eqn:Hne; [|discriminate].
  cbn [negb].
  destruct (validateInput contact (input st)) as [e|] eqn:He.
  { rewrite (validateInput_truthy _ _ _ He). discriminate. }
  cbv iota. intros Hc. injection Hc as Hc. subst c.
  destruct (validated_three_parts contact (input st))
    as (p0 & p1 & p2 & rest & Hs);
    [now right|exact He|intros E; rewrite E in Hne; discriminate|].
  exists p0, p1, p2, rest. split; [exact Hs|].
  cbn [format contactTemplate]. unfold format_contact. now rewrite Hs.
Qed.

(** X19.  For the text template the settled validation reports no error
    exactly when the trimmed text is empty or the sanitized text has at most
    2000 code units: the inner validator of the template never rejects what
    the outer length check let through. *)
Theorem validateInput_text_iff (value : jsstring) :
  validateInput text value = None <->
  trim value = [] \/ len (sanitize_text value) <= 2000.
Proof.
  unfold validateInput.
  destruct (truthy (trim value)) eqn:Ht; cbn [negb].
  2:{ apply truthy_false_nil in Ht. tauto. }
  assert (Hne : trim value <> []) by (intros E; rewrite E in Ht; discriminate).
  set (v := validate_text value _).
  assert (Hv : v = if 2000 <? len (sanitize_text value)
                   then invalid (lit "Maximum length is "
                                 ++ Number_toString 2000
                                 ++ lit " characters")
                   else templateValidator text (sanitize_text value))
    by reflexivity.
  rewrite Hv. clear v Hv.
  destruct (Z.ltb_spec 2000 (len (sanitize_text value))) as [Hlong|Hshort].
  - cbn [isValid invalid error].
    destruct (truthy _); (split; [discriminate|]);
      intros [H|H]; first [contradiction | lia].
  - cbn [templateValidator]. unfold validate_text.
    cbn [required minLength maxLength pattern customValidator andb numberAnd
         negb Z.eqb]. cbv beta.
    destruct (Z.ltb_spec 2000 (len (sanitize_text (sanitize_text value))))
      as [Hlong'|_].
    + exfalso. pose proof (sanitize_text_length (sanitize_text value)).
      unfold len in *. lia.
    + cbn [isValid valid]. tauto.
Qed.

End Validated.

Lemma generateQR_wifi_payload_witness :
  exists p0 p1 p2 rest,
    split (chr ",") (lit "MyNet,pass,WPA") = p0 :: p1 :: p2 :: rest
    /\ lit "WIFI:T:WPA;S:MyNet;P:pass;;"
       = lit "WIFI:T:" ++ p2 ++ lit ";S:" ++ p0 ++ lit ";P:" ++ p1
         ++ lit ";;".
Proof.
  apply (generateQR_wifi_payload (rt := asciiRuntime)
           (Examples.wifiTyped (lit " MyNet,pass,WPA "))
           (lit "WIFI:T:WPA;S:MyNet;P:pass;;")); reflexivity.
Defined.

Lemma generateQR_contact_payload_witness :
  exists p0 p1 p2 rest,
    split (chr ",") (lit "Jane,555-1234,jane@x.com") = p0 :: p1 :: p2 :: rest
    /\ lit "BEGIN:VCARD" ++ newline ++ lit "VERSION:3.0" ++ newline
       ++ lit "FN:Jane" ++ newline ++ lit "TEL:555-1234" ++ newline
       ++ lit "EMAIL:jane@x.com" ++ newline ++ lit "END:VCARD"
       = lit "BEGIN:VCARD" ++ newline ++ lit "VERSION:3.0" ++ newline
         ++ lit "FN:" ++ p0 ++ newline ++ lit "TEL:" ++ p1 ++ newline
         ++ lit "EMAIL:" ++ p2 ++ newline ++ lit "END:VCARD".
Proof.
  apply (generateQR_contact_payload (rt := asciiRuntime)
           (Examples.contactTyped (lit "Jane,555-1234,jane@x.com"))
           (lit "BEGIN:VCARD" ++ newline ++ lit "VERSION:3.0" ++ newline
            ++ lit "FN:Jane" ++ newline ++ lit "TEL:555-1234" ++ newline
            ++ lit "EMAIL:jane@x.com" ++ newline ++ lit "END:VCARD"));
    reflexivity.
Defined.

End PipelineFacts.

(** ** Summary, progress and the two implementations of the diagnostics *)

Module BatteryFacts.
Import JS Diagnostic DiagnosticFacts Progress.

(** Every result is counted once: by its status. *)
Lemma counts_partition (st : State) :
  (passedCount st + failedCount st + skippedCount st + pendingCount st
   = length (results st))%nat.
Proof.
  unfold passedCount, failedCount, skippedCount, pendingCount.
  induction (results st) as [|r rs IH]; [reflexivity|].
  cbn [List.filter]. repeat case_bool_decide; cbn [length]; try congruence;
    try lia.
  destruct (status r); congruence.
Qed.

Lemma snapshots_app (l k : list Event) :
  snapshots (l ++ k) = snapshots l ++ snapshots k.
Proof.
  induction l as [|[] l IH]; cbn [app snapshots]; now rewrite ?IH.
Qed.

Lemma delays_app (l k : list Event) :
  delays (l ++ k) = delays l ++ delays k.
Proof.
  induction l as [|[] l IH]; cbn [app delays]; now rewrite ?IH.
Qed.

(** Each step of the loop displays the results with one more entry
    replaced by its recorded result. *)
Lemma runChecks_snapshots (env : Env) (remaining : list Check) :
  forall (i : nat) (st : State),
    length (results st) = (i + length remaining)%nat ->
    snapshots (log (runChecks env i remaining st))
    = snapshots (log st)
      ++ List.map
           (fun j =>
              take (i + S j)
                (take i (results st) ++ List.map (recorded env) remaining)
              ++ drop (i + S j) (results st))
           (seq 0 (length remaining)).
Proof.
  induction remaining as [|c rest IH]; intros i st Hlen.
  - cbn. now rewrite app_nil_r.
  - cbn [runChecks].
    match goal with
    | |- snapshots (log (runChecks env (S i) rest ?st2)) = _ =>
        assert (Hst2 : results st2 = <[i := recorded env c]> (results st)
                       /\ snapshots (log st2)
                          = snapshots (log st) ++ [results st2]);
        [|set (s2 := st2) in *]
    end.
    { unfold recorded. destruct (check c env);
        cbn [results log record setResults];
        rewrite ?snapshots_app; cbn [snapshots]; rewrite ?app_nil_r;
        rewrite replaceAt_insert; auto. }
    destruct Hst2 as [Hres Hsnap].
    cbn [length] in Hlen.
    assert (Hi : (i < length (results st))%nat) by lia.
    assert (Hlook : <[i := recorded env c]> (results st) !! i
                    = Some (recorded env c))
      by now apply list_lookup_insert_eq.
    assert (Htake : take (S i) (results s2)
                    = take i (results st) ++ [recorded env c]).
    { rewrite Hres, (take_S_r _ i (recorded env c)) by exact Hlook.
      now rewrite take_insert_ge by lia. }
    assert (Hmid : results s2
                   = (take i (results st) ++ [recorded env c])
                     ++ drop (S i) (results st)).
    { rewrite Hres at 1.
      rewrite <- (take_drop_middle _ i (recorded env c) Hlook).
      rewrite take_insert_ge, drop_insert_lt by lia.
      now rewrite <- app_assoc. }
    rewrite IH by (rewrite Hres, length_insert; lia).
    rewrite Hsnap, <- app_assoc. f_equal.
    cbn [length seq List.map app]. rewrite <- seq_shift, List.map_map.
    f_equal.
    + rewrite Hmid at 1. replace (i + 1)%nat with (S i) by lia. f_equal.
      change (recorded env c :: List.map (recorded env) rest)
        with ([recorded env c] ++ List.map (recorded env) rest).
      rewrite app_assoc. symmetry. apply take_app_length'.
      rewrite length_app, length_take. cbn [length]. lia.
    + apply List.map_ext. intros j. rewrite Htake. cbn [List.map].
      rewrite <- app_assoc. cbn [app].
      replace (S i + S j)%nat with (i + S (S j))%nat by lia.
      f_equal. rewrite Hres. apply drop_insert_lt. lia.
Qed.

(** What a battery displays, from the freshly mounted component on. *)
Lemma runBattery_snapshots (cs : list Check) (env : Env) :
  snapshots (log (runBattery cs env initialState))
  = List.map
      (fun i => take i (List.map (recorded env) cs)
                ++ drop i (List.map pendingResult cs))
      (seq 0 (S (length cs))).
Proof.
  unfold runBattery. cbv zeta. cbn [log setIsComplete setIsRunning].
  rewrite !snapshots_app. cbn [snapshots]. rewrite !app_nil_r.
  rewrite runChecks_snapshots
    by (cbn [results setResults]; now rewrite length_map).
  cbn [log results setResults setIsRunning initialState app].
  rewrite ?snapshots_app. cbn [snapshots app seq List.map].
  apply (f_equal2 cons); [reflexivity|].
  rewrite <- seq_shift, List.map_map. apply List.map_ext. intros j.
  reflexivity.
Qed.

Section Battery.
Context {rt : Runtime}.

(** X21.  After a run the summary adds up: the numbers of passed, failed
    and skipped checks together are nine, and none is pending. *)
Theorem runDiagnostics_summary (env : Env) (st : State) :
  let final := runDiagnostics env st in
  (passedCount final + failedCount final + skippedCount final = 9)%nat
  /\ pendingCount final = 0%nat.
Proof.
  cbv zeta. pose proof (counts_partition (runDiagnostics env st)) as Hsum.
  assert (Hpending : pendingCount (runDiagnostics env st) = 0%nat).
  { unfold pendingCount. rewrite terminal_not_pending; [reflexivity|].
    pose proof (runDiagnostics_terminal env st) as H2.
    clear -H2. induction H2 as [|c r cs rs [_ Hr] _ IH]; constructor; auto. }
  rewrite Hpending in Hsum. rewrite runDiagnostics_results in Hsum.
  cbn [length] in Hsum. split; [lia|exact Hpending].
Qed.

(** X22.  Only the camera, microphone and bot-detection checks can end as
    [skipped]; hence at most three checks of a run are skipped. *)
Theorem runDiagnostics_skipped (env : Env) (st : State) :
  let final := runDiagnostics env st in
  (forall r, In r (results final) -> status r = skipped ->
             In (name r) [lit "Camera Permissions";
                          lit "Microphone Permissions";
                          lit "Bot Detection"])
  /\ (skippedCount final <= 3)%nat.
Proof.
  cbv zeta.
  assert (H5 : status (checkWebRTC env) <> skipped
               /\ status (checkWebGL env) <> skipped
               /\ status (checkServiceWorkers env) <> skipped
               /\ status (checkIndexedDB env) <> skipped
               /\ status (checkAudioContext env) <> skipped
               /\ status (checkNotificationPermissions env) <> skipped).
  { unfold checkWebRTC, checkWebGL, checkServiceWorkers, checkIndexedDB,
      checkAudioContext, checkNotificationPermissions.
    repeat split; repeat case_match; discriminate. }
  destruct H5 as (H1 & H2 & H3 & H4 & H5 & H8).
  split.
  - intros r Hr Hs. rewrite runDiagnostics_results in Hr.
    cbn [In] in Hr.
    destruct Hr as [<-|[<-|[<-|[<-|[<-|[<-|[<-|[<-|[<-|[]]]]]]]]]];
      try contradiction.
    + left. symmetry. apply checkCameraPermissions_answers.
    + right. left. symmetry. apply checkMicrophonePermissions_answers.
    + right. right. left. symmetry. apply classify_answers.
  - unfold skippedCount. rewrite runDiagnostics_results.
    cbn [List.filter].
    rewrite !(bool_decide_eq_false_2 (status (checkWebRTC env) = skipped)),
      !(bool_decide_eq_false_2 (status (checkWebGL env) = skipped)),
      !(bool_decide_eq_false_2 (status (checkServiceWorkers env) = skipped)),
      !(bool_decide_eq_false_2 (status (checkIndexedDB env) = skipped)),
      !(bool_decide_eq_false_2 (status (checkAudioContext env) = skipped)),
      !(bool_decide_eq_false_2
          (status (checkNotificationPermissions env) = skipped)) by assumption.
    repeat case_bool_decide; cbn [length]; lia.
Qed.

(** X23.  The diagnostics of the start page and of the diagnostic module
    agree: for every browser they give the same nine names with the same
    statuses, in the same order. *)
Theorem page_agrees_with_module (env : Env) (st : State) :
  List.map (fun r => (name r, status r)) (results (runDiagnostics env st))
  = List.map (fun e => (Page.entry_name e, Page.entry_status e))
      (Page.runDiagnostics env).
Proof.
  rewrite runDiagnostics_results. unfold Page.runDiagnostics.
  cbn [List.map].
  repeat (apply (f_equal2 cons);
          [unfold checkWebRTC, checkWebGL, checkServiceWorkers,
             checkIndexedDB, checkAudioContext, checkCameraPermissions,
             checkMicrophonePermissions, checkNotificationPermissions,
             checkBotDetection, classify;
           cbv zeta; repeat case_match; reflexivity|]).
  reflexivity.
Qed.

(** X24.  A run from the freshly mounted component displays ten result
    lists: first all nine pending, then after each check the list with one
    more result in place.  The results appear one at a time and in order,
    and a displayed result never changes again. *)
Theorem runDiagnostics_progress (env : Env) :
  let final := runDiagnostics env initialState in
  snapshots (log final)
  = List.map
      (fun i => take i (results final)
                ++ drop i (List.map pendingResult checks))
      (seq 0 10).
Proof.
  cbv zeta. unfold runDiagnostics. rewrite runBattery_snapshots.
  change (S (length checks)) with 10%nat.
  apply List.map_ext. intros i. now rewrite runBattery_results.
Qed.

End Battery.


End BatteryFacts.

(** ** Persistence *)

Module PersistenceFacts.
Import JS QRGenerator Persistence.

Section SafeLocalStorage.
Context {V : Type} `{JSON V}.

(** X26.  What [safeLocalStorage.set] reports as written is what
    [safeLocalStorage.get] reads back under the same key, for a value whose
    JSON text is not empty and parses back to it; the other keys read as
    before. *)
Theorem set_then_get (ls ls' : LocalStorage) (key : jsstring) (value d : V) :
  set ls key value = (true, ls') ->
  (forall text, JSON_stringify value = Some text ->
                text <> [] /\ JSON_parse text = Some value) ->
  get ls' key d = value
  /\ (forall (key' : jsstring) (d' : V),
        key' <> key -> get ls' key' d' = get ls key' d').
Proof.
  unfold set, get. intros Hset Hcodec.
  destruct (accessible ls) eqn:Hacc; [|discriminate].
  destruct (JSON_stringify value) as [text|] eqn:Htext; [|discriminate].
  destruct (accepts ls key text); [|discriminate].
  injection Hset as <-. cbn [accessible items withItems]. rewrite Hacc.
  destruct (Hcodec text eq_refl) as [Hne Hparse].
  split.
  - rewrite lookup_insert_eq. destruct text; [congruence|].
    cbn [truthy]. now rewrite Hparse.
  - intros key' d' Hkey. now rewrite lookup_insert_ne by congruence.
Qed.

(** A write that [safeLocalStorage.set] reports as failed (storage
    not accessible, value without JSON text, write refused) changes
    nothing in the storage. *)
Theorem set_failed_unchanged (ls ls' : LocalStorage) (key : jsstring)
    (value : V) :
  set ls key value = (false, ls') -> ls' = ls.
Proof.
  unfold set.
  destruct (accessible ls); [|now intros [= <-]].
  destruct (JSON_stringify value) as [text|]; [|now intros [= <-]].
  destruct (accepts ls key text); [discriminate|now intros [= <-]].
Qed.

(** X27.  After [safeLocalStorage.remove] a read of the key gives the
    default, whether or not the removal succeeded; the other keys read as
    before. *)
Theorem remove_then_get (ls : LocalStorage) (key : jsstring) (d : V) :
  get (snd (remove ls key)) key d = d
  /\ (forall (key' : jsstring) (d' : V),
        key' <> key -> get (snd (remove ls key)) key' d' = get ls key' d').
Proof.
  unfold remove, get. destruct (accessible ls) eqn:Hacc;
    cbn [snd accessible items withItems]; rewrite Hacc.
  - split; [now rewrite lookup_delete_eq|].
    intros key' d' Hkey. now rewrite lookup_delete_ne by congruence.
  - split; reflexivity.
Qed.

End SafeLocalStorage.

Section History.
Context `{JSON (list QRHistory)}.

(** X28.  [saveToHistory] of the validated generator makes the history the
    new entry (the generated id, the content, the name of the selected
    template, the clock reading and the data URL) followed by the first nine
    entries from before: at most ten entries, and nothing else of the state
    changes.  Without a toast, a later mount loads exactly the history that
    is in memory (for a history that its JSON text reproduces); with the
    toast the storage is unchanged, so that memory and storage differ until
    the next successful save. *)
Theorem saveToHistory_persisted (newId : jsstring) (now : Z)
    (content' qrDataUrl' : jsstring) (st : State) (ls : LocalStorage) :
  let '(st', ls', toast) :=
    saveToHistory newId now content' qrDataUrl' st ls in
  st' = {| input := input st;
           selectedTemplate := selectedTemplate st;
           qrHistory :=
             {| entryId := newId; content := content';
                template := name (selectedTemplate st);
                timestamp := now; qrDataUrl := qrDataUrl' |}
             :: take 9 (qrHistory st);
           validationError := validationError st;
           stored := stored st |}
  /\ (length (qrHistory st') <= 10)%nat
  /\ (toast = None
      \/ toast = Some (lit "Failed to save to history. Storage may be full."))
  /\ (toast = None ->
      (forall text, JSON_stringify (qrHistory st') = Some text ->
                    text <> [] /\ JSON_parse text = Some (qrHistory st')) ->
      loadHistory ls' = qrHistory st')
  /\ (toast <> None -> ls' = ls).
Proof.
  unfold saveToHistory. cbv zeta.
  destruct (set ls historyKey _) as [saved ls'] eqn:Hset.
  cbn [qrHistory]. split; [reflexivity|].
  split; [cbn [length]; rewrite length_take; lia|].
  split; [destruct saved; [now left|now right]|]. destruct saved.
  - split; [|congruence]. intros _ Hcodec. unfold loadHistory.
    revert Hset Hcodec. unfold set, get.
    destruct (accessible ls) eqn:Hacc; [|discriminate].
    destruct (JSON_stringify _) as [text|] eqn:Htext; [|discriminate].
    destruct (accepts ls historyKey text); [|discriminate].
    intros [= <-] Hcodec. cbn [accessible items withItems]. rewrite Hacc.
    destruct (Hcodec text eq_refl) as [Hne Hparse].
    rewrite lookup_insert_eq. destruct text; [congruence|].
    cbn [truthy]. now rewrite Hparse.
  - split; [discriminate|]. intros _. revert Hset. unfold set.
    destruct (accessible ls); [|now intros [= <-]].
    destruct (JSON_stringify _) as [text|]; [|now intros [= <-]].
    destruct (accepts ls historyKey text); [discriminate|now intros [= <-]].
Qed.

End History.

Lemma set_then_get_witness :
  get (H := Examples.quoted)
    (snd (set (H := Examples.quoted) (Examples.colourStore 20)
            (lit "qrForegroundColor") (lit "#FF0000")))
    (lit "qrForegroundColor") (lit "#000000")
  = lit "#FF0000".
Proof.
  apply (set_then_get (H := Examples.quoted) (Examples.colourStore 20)).
  - reflexivity.
  - intros text [= <-]. split; [discriminate|reflexivity].
Defined.

Lemma set_failed_unchanged_witness :
  snd (set (H := Examples.quoted) (Examples.colourStore 5)
         (lit "qrForegroundColor") (lit "#FF0000"))
  = Examples.colourStore 5.
Proof.
  apply (set_failed_unchanged (H := Examples.quoted) (Examples.colourStore 5)
           _ (lit "qrForegroundColor") (lit "#FF0000")).
  reflexivity.
Defined.

Lemma remove_then_get_witness :
  get (H := Examples.quoted)
    (snd (remove (Examples.colourStore 20) (lit "qrForegroundColor")))
    (lit "qrBackgroundColor") (lit "#000000")
  = lit "#FFFFFF".
Proof.
  rewrite (proj2 (remove_then_get (H := Examples.quoted)
                    (Examples.colourStore 20) (lit "qrForegroundColor")
                    (lit "#000000"))) by discriminate.
  reflexivity.
Defined.

Lemma saveToHistory_persisted_witness :
  let run :=
    saveToHistory (H := Examples.historyCodec) (lit "k3x9") 11 (lit "eleven")
      (lit "data:,") Examples.fullHistory (Examples.colourStore 1000) in
  loadHistory (H := Examples.historyCodec) (snd (fst run))
  = qrHistory (fst (fst run)).
Proof.
  intros run.
  pose proof (saveToHistory_persisted (H := Examples.historyCodec)
                (lit "k3x9") 11 (lit "eleven") (lit "data:,")
                Examples.fullHistory (Examples.colourStore 1000)) as Hp.
  fold run in Hp.
  assert (Htoast : snd run = None) by (vm_compute; reflexivity).
  assert (Hcodec : JSON_parse (JSON := Examples.historyCodec)
                     (N.of_nat (length (qrHistory (fst (fst run))))
                      :: concat (List.map Examples.writeEntry
                                   (qrHistory (fst (fst run)))))
                   = Some (qrHistory (fst (fst run))))
    by (vm_compute; reflexivity).
  destruct run as [[st' ls'] toast]. cbn [fst snd] in *.
  destruct Hp as (_ & _ & _ & Hload & _). apply Hload; [exact Htoast|].
  intros text Htext. injection Htext as <-.
  split; [discriminate|exact Hcodec].
Defined.

End PersistenceFacts.

(** ** Generating, and generating again from the history *)

Module SimpleGeneratorFacts.
Import JS QRGenerator SimpleGenerator JSFacts.

Lemma format_url_twice (value : jsstring) :
  format_url (format_url value) = format_url value.
Proof.
  unfold format_url.
  destruct (startsWith (lit "http") value) eqn:H; [now rewrite H|reflexivity].
Qed.

(** A generation changes the history only when the engine delivers
    a code: then the new first entry holds the formatted content and the
    data URL, the history keeps at most ten entries, and the toast reports a
    success when the write to the storage returned and a failure when it
    threw.  A rejected input and a failing engine leave the state as it
    is. *)
Theorem generateQR_history (toDataURL : Engine) (setItem : Completion)
    (now_id now_ts : Z) (st : State) :
  let st' := fst (generateQR toDataURL setItem now_id now_ts st) in
  let toast := snd (generateQR toDataURL setItem now_id now_ts st) in
  (st' = st /\ toast <> lit "QR code generated successfully!")
  \/ (exists c dataUrl,
        generateQR_content st = Formatted c
        /\ toDataURL c = Diagnostic.Ok dataUrl
        /\ qrHistory st'
           = {| entryId := Number_toString now_id; content := c;
                template := name (selectedTemplate st);
                timestamp := now_ts; qrDataUrl := dataUrl |}
             :: take 9 (qrHistory st)
        /\ (length (qrHistory st') <= 10)%nat
        /\ toast
           = match setItem with
             | Returned => lit "QR code generated successfully!"
             | Thrown => lit "Failed to generate QR code. Please try again."
             end).
Proof.
  cbv zeta. unfold generateQR.
  destruct (generateQR_content st) as [toast|c] eqn:Hc.
  - left. split; [reflexivity|]. cbn [snd]. revert Hc.
    unfold generateQR_content. cbv zeta.
    destruct (negb _); [intros [= <-]; discriminate|].
    destruct (2000 <? _); [intros [= <-]; discriminate|discriminate].
  - destruct (toDataURL c) as [dataUrl|e] eqn:Hurl.
    + right. exists c, dataUrl. split; [reflexivity|]. split; [exact Hurl|].
      destruct setItem; cbn [fst snd saveToHistory qrHistory];
        (split; [reflexivity|]); (split; [|reflexivity]);
        cbn [length]; rewrite length_take; lia.
    + left. split; [reflexivity|]. discriminate.
Qed.

(** X20.  Loading an entry from the history and generating again: with the
    text or the website template selected, a content of at most 2000 code
    units that a generation produced is produced again unchanged; with the
    email template the prefix is put in front once more. *)
Theorem regenerate_from_history (st : State) (e : QRHistory) (c : jsstring) :
  generateQR_content st = Formatted c ->
  content e = c -> len c <= 2000 ->
  (selectedTemplate st = textTemplate \/ selectedTemplate st = urlTemplate ->
   generateQR_content (loadFromHistory e st) = Formatted c)
  /\ (selectedTemplate st = emailTemplate ->
      generateQR_content (loadFromHistory e st)
      = Formatted (lit "mailto:" ++ c)).
Proof.
  unfold generateQR_content at 1. cbv zeta.
  destruct (truthy (trim (input st))) eqn:Ht; [|discriminate]. cbn [negb].
  destruct (2000 <? len (trim (input st))); [discriminate|].
  intros Hc He Hlen. injection Hc as Hc.
  assert (Hne : trim (input st) <> [])
    by (intros E; rewrite E in Ht; discriminate).
  assert (Hgen : forall t, selectedTemplate st = t -> trim c = c ->
                           c <> [] ->
                           generateQR_content (loadFromHistory e st)
                           = Formatted (format t c)).
  { intros t Hsel Htrim Hcne. unfold generateQR_content, loadFromHistory.
    cbn [input selectedTemplate]. rewrite He, Htrim, Hsel.
    destruct c as [|x c']; [congruence|].
    cbn [truthy negb]. destruct (Z.ltb_spec 2000 (len (x :: c')));
      [lia|reflexivity]. }
  split.
  - intros [Hsel|Hsel]; rewrite Hsel in Hc; cbn [format textTemplate
      urlTemplate] in Hc.
    + rewrite (Hgen _ Hsel); [reflexivity| |congruence].
      rewrite <- Hc. apply trim_idem.
    + rewrite (Hgen _ Hsel).
      * cbn [format urlTemplate]. rewrite <- Hc.
        now rewrite format_url_twice.
      * rewrite <- Hc. unfold format_url.
        destruct (startsWith (lit "http") (trim (input st)));
          [apply trim_idem|].
        apply (trim_prefixed (chr "h") (lit "ttps://")); [reflexivity|].
        exact Hne.
      * rewrite <- Hc. unfold format_url.
        destruct (startsWith (lit "http") (trim (input st)));
          [exact Hne|discriminate].
  - intros Hsel. rewrite Hsel in Hc. cbn [format emailTemplate] in Hc.
    rewrite (Hgen _ Hsel); [reflexivity| |rewrite <- Hc; discriminate].
    rewrite <- Hc.
    apply (trim_prefixed (chr "m") (lit "ailto:")); [reflexivity|exact Hne].
Qed.

Lemma regenerate_from_history_witness :
  generateQR_content
    (loadFromHistory
       {| entryId := lit "1"; content := lit "https://example.com";
          template := lit "Website"; timestamp := 1;
          qrDataUrl := lit "data:," |}
       (Examples.typed urlTemplate (lit " example.com ")))
  = Formatted (lit "https://example.com").
Proof.
  apply (regenerate_from_history
           (Examples.typed urlTemplate (lit " example.com "))
           {| entryId := lit "1"; content := lit "https://example.com";
              template := lit "Website"; timestamp := 1;
              qrDataUrl := lit "data:," |}
           (lit "https://example.com"));
    first [reflexivity | vm_compute; discriminate | now right].
Defined.

End SimpleGeneratorFacts.
